(** * Merchant cog: rotation lifecycle and purchase transaction

    A shallow embedding of [merchant/cog.py].  The Django tables are lists of
    rows, the ORM calls are operations of a small state-and-exception monad
    [M] over a [World] (the store, the wall clock, the random source and the
    store faults still to come), and every [async def] is a [Task]: a tree of
    effect calls that can be run to completion or interleaved with another
    task. *)

From Stdlib Require Import ZArith QArith List Bool Lia.
From Stdlib Require String Ascii DecimalString Permutation.
Import ListNotations.
Open Scope Z_scope.

(** ** Data model *)

(** Modelled from the spec: the tables of [models.py], which is not among
    the sources, with the fields the cog reads and writes; [Player] and
    [BallInstance] are tables of the host application.  Foreign keys hold
    the key of the row they point to. *)

(** [datetime] values are counted in microseconds, the resolution of
    [timezone.now()]. *)
Definition datetime := Z.

Definition timedelta_minutes (m : Z) : Z := m * 60000000.
Definition timedelta_seconds (s : Z) : Z := s * 1000000.

Record MerchantSettings := mkSettings {
  enabled : bool;
  items_per_rotation : Z;
  rotation_minutes : Z;
  purchase_cooldown_seconds : Z;
  last_rotation_at : option datetime
}.

Record MerchantItem := mkItem {
  item_id : Z;
  item_enabled : bool;
  weight : Z;
  price : Z;
  ball : Z;
  special : option Z
}.

Record MerchantRotation := mkRotation {
  rotation_id : Z;
  starts_at : datetime;
  ends_at : datetime
}.

Record MerchantRotationItem := mkRotationItem {
  entry_id : Z;
  entry_rotation : Z;
  entry_item : Z;
  price_snapshot : Z
}.

Record Player := mkPlayer {
  player_pk : Z;
  discord_id : Z;
  money : Z
}.

Record BallInstance := mkBallInstance {
  instance_id : Z;
  instance_ball : Z;
  instance_player : Z;
  instance_special : option Z;
  server_id : option Z;
  tradeable : bool
}.

Record MerchantPurchase := mkPurchase {
  purchase_id : Z;
  purchase_player : Z;
  purchase_rotation_item : Z;
  created_at : datetime
}.

(** The persistent store: one list of rows per table, in table order. *)
Record DB := mkDB {
  settings : MerchantSettings;
  items : list MerchantItem;
  rotations : list MerchantRotation;
  rotation_items : list MerchantRotationItem;
  players : list Player;
  instances : list BallInstance;
  purchases : list MerchantPurchase
}.

(** What a slash command is invoked with. *)
Record Interaction := mkInteraction {
  user_id : Z;
  guild_id : option Z
}.

(** ** The world and its monad *)

Inductive Exn : Type :=
| DatabaseError
| DoesNotExist
| ValueError
| IndexError.

Inductive Result (A : Type) : Type :=
| Ok (a : A)
| Raised (e : Exn).
Arguments Ok {A} a.
Arguments Raised {A} e.

(** [clock] and [rng] are the successive readings of [timezone.now()] and of
    [random.random()]; [tick] and [draws] count the readings consumed so far.
    [faults] says, for each store operation still to come, whether it fails
    (an exhausted list means no further fault). *)
Record World := mkWorld {
  db : DB;
  clock : nat -> datetime;
  tick : nat;
  rng : nat -> Q;
  draws : nat;
  faults : list bool
}.

Definition set_db (d : DB) (w : World) : World :=
  mkWorld d (clock w) (tick w) (rng w) (draws w) (faults w).
Definition set_faults (fs : list bool) (w : World) : World :=
  mkWorld (db w) (clock w) (tick w) (rng w) (draws w) fs.

Definition M (A : Type) : Type := World -> Result A * World.

Definition ret {A} (a : A) : M A := fun w => (Ok a, w).
Definition raise {A} (e : Exn) : M A := fun w => (Raised e, w).
Definition bind {A B} (m : M A) (f : A -> M B) : M B :=
  fun w => match m w with
           | (Ok a, w') => f a w'
           | (Raised e, w') => (Raised e, w')
           end.

Declare Scope m_scope.
Delimit Scope m_scope with M.
Notation "x <- m ;; k" := (bind m (fun x => k))
  (at level 100, m at next level, right associativity) : m_scope.
Notation "m ;;; k" := (bind m (fun _ => k))
  (at level 100, right associativity) : m_scope.
Open Scope m_scope.

(** [try: m except Exception: h] *)
Definition try_except {A} (m : M A) (h : Exn -> M A) : M A :=
  fun w => match m w with
           | (Ok a, w') => (Ok a, w')
           | (Raised e, w') => h e w'
           end.

(** One store operation: it fails when the fault list says so, and then has
    no effect on the store. *)
Definition db_op {A} (f : DB -> Result A * DB) : M A :=
  fun w => match faults w with
           | true :: fs => (Raised DatabaseError, set_faults fs w)
           | false :: fs => let (r, d) := f (db w) in (r, set_db d (set_faults fs w))
           | [] => let (r, d) := f (db w) in (r, set_db d w)
           end.

Definition db_query {A} (q : DB -> A) : M A := db_op (fun d => (Ok (q d), d)).
Definition db_update (u : DB -> DB) : M unit := db_op (fun d => (Ok tt, u d)).

(** [with transaction.atomic(): body]: the writes of [body] are committed
    together when the block is left normally, and undone when it is left by
    an exception (also one raised by the commit itself). *)
Definition atomic {A} (body : M A) : M A :=
  fun w => match (a <- body ;; db_update (fun d => d) ;;; ret a) w with
           | (Ok a, w') => (Ok a, w')
           | (Raised e, w') => (Raised e, set_db (db w) w')
           end.

(** [timezone.now()] *)
Definition timezone_now : M datetime :=
  fun w => (Ok (clock w (tick w)),
            mkWorld (db w) (clock w) (S (tick w)) (rng w) (draws w) (faults w)).

(** [random.random()], a number of [0, 1); floats are taken as exact
    rationals. *)
Definition random_random : M Q :=
  fun w => (Ok (rng w (draws w)),
            mkWorld (db w) (clock w) (tick w) (rng w) (S (draws w)) (faults w)).

(** ** Coroutines *)

(** An [async def] is a tree of effect calls; the scheduler may switch to
    another task between any two of them.  A [with transaction.atomic()]
    block holds no suspension point and is a single call. *)
Inductive Task (R : Type) : Type :=
| Return (r : R)
| Call (X : Type) (op : M X) (k : X -> Task R).
Arguments Return {R} r.
Arguments Call {R X} op k.

Fixpoint tbind {A B} (t : Task A) (f : A -> Task B) : Task B :=
  match t with
  | Return a => f a
  | Call op k => Call op (fun x => tbind (k x) f)
  end.

Definition call {X} (op : M X) : Task X := Call op Return.

Declare Scope task_scope.
Delimit Scope task_scope with task.
Notation "x <~ t ;; k" := (tbind t (fun x => k))
  (at level 100, t at next level, right associativity) : task_scope.

(** Running a task alone, from its first call to its [return]. *)
Fixpoint run {R} (t : Task R) : M R :=
  match t with
  | Return r => ret r
  | Call op k => fun w => match op w with
                          | (Ok x, w') => run (k x) w'
                          | (Raised e, w') => (Raised e, w')
                          end
  end.

(** ** Python built-ins used by the cog *)

(** [itertools.accumulate(weights)] *)
Fixpoint accumulate_from (acc : Z) (ws : list Z) : list Z :=
  match ws with
  | [] => []
  | x :: ws' => (acc + x) :: accumulate_from (acc + x) ws'
  end.
Definition accumulate (ws : list Z) : list Z := accumulate_from 0 ws.

(** [bisect.bisect_right(a, x, 0, hi)] on a sorted list: the first position
    below [hi] whose entry exceeds [x], and [hi] when there is none. *)
Fixpoint bisect (a : list Z) (x : Q) (hi : nat) : nat :=
  match hi, a with
  | S hi', c :: a' => if Qle_bool (inject_Z c) x then S (bisect a' x hi') else O
  | _, _ => O
  end.

(** The position [random.choices] picks once it has drawn [u]. *)
Definition choice_index (weights : list Z) (u : Q) : nat :=
  let cum_weights := accumulate weights in
  let total := last cum_weights 0 in
  bisect cum_weights (u * inject_Z total)%Q (length weights - 1).

(** [random.choices(population, weights=weights, k=1)[0]] *)
Definition random_choices {A} (population : list A) (weights : list Z) : M A :=
  let cum_weights := accumulate weights in
  if negb (length cum_weights =? length population)%nat then raise ValueError
  else match cum_weights with
       | [] => raise IndexError
       | _ :: _ =>
           if last cum_weights 0 <=? 0 then raise ValueError
           else
             u <- random_random ;;
             match nth_error population (choice_index weights u) with
             | Some x => ret x
             | None => raise IndexError
             end
       end.

(** Django compares model instances by primary key. *)
Definition item_eqb (a b : MerchantItem) : bool := item_id a =? item_id b.

(** [pool.remove(choice)]: drops the first equal element, [ValueError] when
    there is none. *)
Fixpoint list_remove (x : MerchantItem) (pool : list MerchantItem)
  : option (list MerchantItem) :=
  match pool with
  | [] => None
  | y :: pool' =>
      if item_eqb y x then Some pool'
      else match list_remove x pool' with
           | Some r => Some (y :: r)
           | None => None
           end
  end.

Definition pool_remove (x : MerchantItem) (pool : list MerchantItem)
  : M (list MerchantItem) :=
  match list_remove x pool with
  | Some r => ret r
  | None => raise ValueError
  end.

(** ** The ORM calls of the cog *)

(** The key a new row of a table gets. *)
Definition next_pk (keys : list Z) : Z := 1 + fold_right Z.max 0 keys.

(** [.order_by("-key").afirst()]: a row of greatest key, the earliest such
    row of the table when several tie. *)
Fixpoint first_by_desc {A} (key : A -> Z) (rows : list A) : option A :=
  match rows with
  | [] => None
  | x :: rows' =>
      match first_by_desc key rows' with
      | Some y => if key x <? key y then Some y else Some x
      | None => Some x
      end
  end.

(** Modelled from the spec: [MerchantSettings.load()] of [models.py], which
    is not part of the sources, reads the singleton configuration row. *)
Definition MerchantSettings_load : M MerchantSettings := db_query settings.

Definition active_rotation_at (now : datetime) (d : DB) : option MerchantRotation :=
  first_by_desc starts_at (filter (fun r => now <? ends_at r) (rotations d)).

Definition enabled_items (d : DB) : list MerchantItem :=
  filter item_enabled (items d).

Definition Entry : Type := MerchantRotationItem * MerchantItem.

(** [rotation.rotation_items.select_related("item__ball", "item__special")]:
    the line items of the rotation, each joined with its catalog item. *)
Definition join_item (d : DB) (e : MerchantRotationItem) : list Entry :=
  match find (fun i => item_id i =? entry_item e) (items d) with
  | Some i => [(e, i)]
  | None => []
  end.

Definition rotation_entries (rotation : MerchantRotation) (d : DB) : list Entry :=
  flat_map (join_item d)
    (filter (fun e => entry_rotation e =? rotation_id rotation) (rotation_items d)).

(** Row insertions and updates, table by table. *)
Definition insert_rotation (r : MerchantRotation) (d : DB) : DB :=
  mkDB (settings d) (items d) (rotations d ++ [r]) (rotation_items d)
       (players d) (instances d) (purchases d).

Definition insert_line_items (rows : list MerchantRotationItem) (d : DB) : DB :=
  mkDB (settings d) (items d) (rotations d) (rotation_items d ++ rows)
       (players d) (instances d) (purchases d).

Definition set_last_rotation_at (now : datetime) (d : DB) : DB :=
  let s := settings d in
  mkDB (mkSettings (enabled s) (items_per_rotation s) (rotation_minutes s)
                   (purchase_cooldown_seconds s) (Some now))
       (items d) (rotations d) (rotation_items d)
       (players d) (instances d) (purchases d).

Definition insert_player (p : Player) (d : DB) : DB :=
  mkDB (settings d) (items d) (rotations d) (rotation_items d)
       (players d ++ [p]) (instances d) (purchases d).

Definition update_player (p : Player) (d : DB) : DB :=
  mkDB (settings d) (items d) (rotations d) (rotation_items d)
       (map (fun q => if player_pk q =? player_pk p then p else q) (players d))
       (instances d) (purchases d).

Definition insert_instance (i : BallInstance) (d : DB) : DB :=
  mkDB (settings d) (items d) (rotations d) (rotation_items d)
       (players d) (instances d ++ [i]) (purchases d).

Definition insert_purchase (p : MerchantPurchase) (d : DB) : DB :=
  mkDB (settings d) (items d) (rotations d) (rotation_items d)
       (players d) (instances d) (purchases d ++ [p]).

(** [MerchantRotation.objects.acreate(starts_at=..., ends_at=...)] *)
Definition MerchantRotation_acreate (starts ends : datetime) : M MerchantRotation :=
  db_op (fun d =>
    let r := mkRotation (next_pk (map rotation_id (rotations d))) starts ends in
    (Ok r, insert_rotation r d)).

(** The rows [abulk_create] writes, keys assigned in order from [pk]. *)
Fixpoint line_items (pk : Z) (rotation : MerchantRotation)
    (selected : list MerchantItem) : list MerchantRotationItem :=
  match selected with
  | [] => []
  | item :: rest =>
      mkRotationItem pk (rotation_id rotation) (item_id item) (price item)
        :: line_items (pk + 1) rotation rest
  end.

Definition MerchantRotationItem_abulk_create (rotation : MerchantRotation)
    (selected : list MerchantItem) : M unit :=
  db_update (fun d =>
    insert_line_items
      (line_items (next_pk (map entry_id (rotation_items d))) rotation selected) d).

(** [MerchantSettings.objects.filter(pk=config.pk).aupdate(last_rotation_at=now)] *)
Definition MerchantSettings_aupdate_last_rotation_at (now : datetime) : M unit :=
  db_update (set_last_rotation_at now).

(** [Player.objects.aget_or_create(discord_id=...)]; a new player starts
    with an empty purse. *)
Definition get_or_create (uid : Z) (d : DB) : Player * DB :=
  match find (fun p => discord_id p =? uid) (players d) with
  | Some p => (p, d)
  | None =>
      let p := mkPlayer (next_pk (map player_pk (players d))) uid 0 in
      (p, insert_player p d)
  end.

Definition Player_aget_or_create (uid : Z) : M Player :=
  db_op (fun d => let (p, d') := get_or_create uid d in (Ok p, d')).

(** [Player.objects.select_for_update().get(pk=...)] *)
Definition Player_select_for_update_get (pk : Z) : M Player :=
  db_op (fun d =>
    match find (fun p => player_pk p =? pk) (players d) with
    | Some p => (Ok p, d)
    | None => (Raised DoesNotExist, d)
    end).

(** [player.save()] *)
Definition Player_save (p : Player) : M unit := db_update (update_player p).

(** Modelled from the spec: [Player.can_afford] belongs to the host
    application; the balance must reach the amount. *)
Definition can_afford (p : Player) (amount : Z) : bool := amount <=? money p.

(** [BallInstance.objects.create(...)] *)
Definition BallInstance_create (b pl : Z) (sp srv : option Z) (tr : bool)
  : M BallInstance :=
  db_op (fun d =>
    let i := mkBallInstance (next_pk (map instance_id (instances d))) b pl sp srv tr in
    (Ok i, insert_instance i d)).

(** Modelled from the spec: [MerchantPurchase] of [models.py] stamps
    [created_at] with the time of its creation. *)
Definition MerchantPurchase_create (pl rotation_item : Z) : M MerchantPurchase :=
  now <- timezone_now ;;
  db_op (fun d =>
    let p := mkPurchase (next_pk (map purchase_id (purchases d))) pl rotation_item now in
    (Ok p, insert_purchase p d)).

Definition last_purchase_of (pk : Z) (d : DB) : option MerchantPurchase :=
  first_by_desc created_at (filter (fun p => purchase_player p =? pk) (purchases d)).

(** ** The cog *)

Open Scope task_scope.

(** What the caller of [/merchant view] is sent. *)
Inductive ViewReply : Type :=
| MerchantAway
| SoldOut (rotation : MerchantRotation)
| CurrentStock (rotation : MerchantRotation) (entries : list Entry).

(** What the caller of [/merchant buy] is sent. *)
Inductive BuyReply : Type :=
| MerchantDisabled
| NoActiveRotation
| NotInRotation
| OnCooldown (ready_at : datetime)
| NotEnoughMoney
| TransactionInsufficientFunds
| Bought (instance : BallInstance)
| PurchaseError.

(** The error taxonomy of the replies. *)
Inductive Rejection : Type :=
| Unavailable
| NotFound
| Throttled
| InsufficientFunds
| TransactionFailure.

Definition rejection (r : BuyReply) : option Rejection :=
  match r with
  | MerchantDisabled => Some Unavailable
  | NoActiveRotation => Some Unavailable
  | NotInRotation => Some NotFound
  | OnCooldown _ => Some Throttled
  | NotEnoughMoney => Some InsufficientFunds
  | TransactionInsufficientFunds => Some InsufficientFunds
  | Bought _ => None
  | PurchaseError => Some TransactionFailure
  end.

(** [_get_active_rotation]: the most recent rotation that has not ended. *)
Definition _get_active_rotation : Task (option MerchantRotation) :=
  now <~ call timezone_now ;;
  call (db_query (active_rotation_at now)).

(** The sampling loop of [_create_new_rotation]: [k] weighted draws, each
    followed by the removal of the drawn item from the pool.  [range(k)] runs
    [Z.to_nat k] times, not at all when [k <= 0]. *)
Fixpoint select_items (k : nat) (pool selected_items : list MerchantItem)
  : M (list MerchantItem) :=
  match k with
  | O => ret selected_items
  | S k' =>
      let weights := map (fun i => Z.max 1 (weight i)) pool in
      (choice <- random_choices pool weights ;;
       pool' <- pool_remove choice pool ;;
       select_items k' pool' (selected_items ++ [choice]))%M
  end.

(** [_create_new_rotation]: generates a new set of items and saves the
    rotation. *)
Definition _create_new_rotation (config : MerchantSettings)
  : Task (option MerchantRotation) :=
  available_items <~ call (db_query enabled_items) ;;
  match available_items with
  | [] => Return None
  | _ :: _ =>
      let k := Z.min (items_per_rotation config) (Z.of_nat (length available_items)) in
      selected_items <~ call (select_items (Z.to_nat k) available_items []) ;;
      now <~ call timezone_now ;;
      new_rotation <~ call (MerchantRotation_acreate now
                              (now + timedelta_minutes (rotation_minutes config))) ;;
      _ <~ call (MerchantRotationItem_abulk_create new_rotation selected_items) ;;
      _ <~ call (MerchantSettings_aupdate_last_rotation_at now) ;;
      Return (Some new_rotation)
  end.

(** [ensure_rotation]: ensures a rotation exists if enabled, creating one if
    expired.  Its body runs under [_rotation_lock], which keeps two callers
    from running it at once. *)
Definition ensure_rotation : Task (option MerchantRotation) :=
  config <~ call MerchantSettings_load ;;
  if negb (enabled config) then Return None
  else
    now <~ call timezone_now ;;
    rotation <~ _get_active_rotation ;;
    match rotation with
    | Some r => if now <? ends_at r then Return (Some r)
                else _create_new_rotation config
    | None => _create_new_rotation config
    end.

(** [_get_rotation_entries] *)
Definition _get_rotation_entries (rotation : MerchantRotation) : Task (list Entry) :=
  call (db_query (rotation_entries rotation)).

(** [_get_cooldown_end]: the timestamp when the player can buy again. *)
Definition _get_cooldown_end (player : Player) (cooldown_seconds : Z)
  : Task (option datetime) :=
  last_purchase <~ call (db_query (last_purchase_of (player_pk player))) ;;
  match last_purchase with
  | None => Return None
  | Some p =>
      let ready_at := created_at p + timedelta_seconds cooldown_seconds in
      now <~ call timezone_now ;;
      Return (if now <? ready_at then Some ready_at else None)
  end.

(** [/merchant view]; the embed sent is the reply returned. *)
Definition view (interaction : Interaction) : Task ViewReply :=
  rotation <~ ensure_rotation ;;
  match rotation with
  | None => Return MerchantAway
  | Some rotation =>
      entries <~ _get_rotation_entries rotation ;;
      match entries with
      | [] => Return (SoldOut rotation)
      | _ :: _ => Return (CurrentStock rotation entries)
      end
  end.

(** The [try] block of [buy]: the atomic debit, grant and ledger write, and
    what the caller is told. *)
Definition buy_transaction (interaction : Interaction) (entry : Entry)
    (player : Player) : M BuyReply :=
  try_except
    (atomic
       (locked_player <- Player_select_for_update_get (player_pk player) ;;
        if negb (can_afford locked_player (price_snapshot (fst entry)))
        then ret TransactionInsufficientFunds
        else
          Player_save (mkPlayer (player_pk locked_player) (discord_id locked_player)
                         (money locked_player - price_snapshot (fst entry))) ;;;
          instance <- BallInstance_create (ball (snd entry)) (player_pk locked_player)
                        (special (snd entry)) (guild_id interaction) true ;;
          MerchantPurchase_create (player_pk locked_player) (entry_id (fst entry)) ;;;
          ret (Bought instance))%M)
    (fun _ => ret PurchaseError).

(** [/merchant buy].  What is sent through [interaction.response] and
    [interaction.followup] is the reply returned; deferring the response
    changes nothing in the store. *)
Definition buy (interaction : Interaction) (item_id : Z) : Task BuyReply :=
  config <~ call MerchantSettings_load ;;
  if negb (enabled config) then Return MerchantDisabled
  else
    rotation <~ _get_active_rotation ;;
    match rotation with
    | None => Return NoActiveRotation
    | Some rotation =>
        entries <~ _get_rotation_entries rotation ;;
        match find (fun e => entry_id (fst e) =? item_id) entries with
        | None => Return NotInRotation
        | Some entry =>
            player <~ call (Player_aget_or_create (user_id interaction)) ;;
            cooldown_end <~ _get_cooldown_end player (purchase_cooldown_seconds config) ;;
            match cooldown_end with
            | Some ready_at => Return (OnCooldown ready_at)
            | None =>
                if negb (can_afford player (price_snapshot (fst entry)))
                then Return NotEnoughMoney
                else call (buy_transaction interaction entry player)
            end
        end
    end.

(** ** Interleaved execution *)





(** ** Vocabulary of the statements *)

(** Every effect call of the task relates the store before to the store
    after by [P]. *)
Fixpoint preserves {R} (P : DB -> DB -> Prop) (t : Task R) : Prop :=
  match t with
  | Return _ => True
  | Call op k => (forall w, P (db w) (db (snd (op w)))) /\ forall x, preserves P (k x)
  end.

Definition balance_of (pk : Z) (d : DB) : option Z :=
  option_map money (find (fun p => player_pk p =? pk) (players d)).

(** The world after [n] further clock readings, and after [n] further
    random draws. *)
Definition advance (n : nat) (w : World) : World :=
  mkWorld (db w) (clock w) (n + tick w) (rng w) (draws w) (faults w).
Definition drawn (n : nat) (w : World) : World :=
  mkWorld (db w) (clock w) (tick w) (rng w) (n + draws w) (faults w).

Definition zsum (l : list Z) : Z := fold_right Z.add 0 l.

(** The weights the sampling loop hands to [random.choices]. *)
Definition pool_weights (pool : list MerchantItem) : list Z :=
  map (fun i => Z.max 1 (weight i)) pool.

(** The item one weighted draw takes from [pool] when the random source
    yields [u]. *)
Definition draw (pool : list MerchantItem) (u : Q) : option MerchantItem :=
  nth_error pool (choice_index (pool_weights pool) u).

(** The pool left once the items [chosen] have been removed, in order. *)
Definition remaining (pool chosen : list MerchantItem) : list MerchantItem :=
  fold_left (fun p c => match list_remove c p with Some r => r | None => p end)
            chosen pool.

(** The row [_create_new_rotation] writes at time [now], and the store once
    the rotation, its line items and the audit timestamp are written. *)
Definition new_rotation_row (config : MerchantSettings) (now : datetime) (d : DB)
  : MerchantRotation :=
  mkRotation (next_pk (map rotation_id (rotations d))) now
             (now + timedelta_minutes (rotation_minutes config)).

Definition new_line_items (r : MerchantRotation) (selected : list MerchantItem) (d : DB)
  : list MerchantRotationItem :=
  line_items (next_pk (map entry_id (rotation_items d))) r selected.

Definition rotation_created (config : MerchantSettings) (now : datetime)
    (selected : list MerchantItem) (d : DB) : DB :=
  let r := new_rotation_row config now d in
  set_last_rotation_at now
    (insert_line_items (new_line_items r selected d) (insert_rotation r d)).

(** The target size of a rotation. *)
Definition rotation_size (config : MerchantSettings) (d : DB) : Z :=
  Z.min (items_per_rotation config) (Z.of_nat (length (enabled_items d))).

(** The rows a committed purchase writes, and the store it leaves. *)
Definition debited (locked : Player) (entry : Entry) : Player :=
  mkPlayer (player_pk locked) (discord_id locked)
           (money locked - price_snapshot (fst entry)).

Definition granted_instance (interaction : Interaction) (entry : Entry)
    (locked : Player) (d : DB) : BallInstance :=
  mkBallInstance (next_pk (map instance_id (instances d))) (ball (snd entry))
                 (player_pk locked) (special (snd entry)) (guild_id interaction) true.

Definition ledger_entry (entry : Entry) (locked : Player) (now : datetime) (d : DB)
  : MerchantPurchase :=
  mkPurchase (next_pk (map purchase_id (purchases d))) (player_pk locked)
             (entry_id (fst entry)) now.

Definition purchase_committed (interaction : Interaction) (entry : Entry)
    (locked : Player) (now : datetime) (d : DB) : DB :=
  insert_purchase (ledger_entry entry locked now d)
    (insert_instance (granted_instance interaction entry locked d)
       (update_player (debited locked entry) d)).

Definition player_by_pk (pk : Z) (d : DB) : option Player :=
  find (fun p => player_pk p =? pk) (players d).

(** The decision of [_get_cooldown_end] at time [now]. *)
Definition cooldown_end_at (now : datetime) (cooldown_seconds : Z) (pk : Z) (d : DB)
  : option datetime :=
  match last_purchase_of pk d with
  | None => None
  | Some p =>
      let ready_at := created_at p + timedelta_seconds cooldown_seconds in
      if now <? ready_at then Some ready_at else None
  end.

(** The part of the store the rotation manager owns is the same in [d]
    and [d']. *)
Definition same_rotations (d d' : DB) : Prop :=
  rotations d' = rotations d /\ rotation_items d' = rotation_items d /\
  settings d' = settings d /\ items d' = items d.

(** ** Sample data *)

Definition settings_open : MerchantSettings := mkSettings true 2 60 30 None.
Definition settings_closed : MerchantSettings := mkSettings false 2 60 30 None.

Definition item_a : MerchantItem := mkItem 1 true 5 80 101 None.
Definition item_b : MerchantItem := mkItem 2 true 0 50 102 (Some 7).
Definition item_c : MerchantItem := mkItem 3 true 9 10 103 None.
Definition item_d : MerchantItem := mkItem 4 false 3 20 104 None.
Definition catalog : list MerchantItem := [item_a; item_b; item_c; item_d].

Definition rotation_1 : MerchantRotation := mkRotation 1 0 (timedelta_minutes 60).
Definition line_1 : MerchantRotationItem := mkRotationItem 1 1 1 80.
Definition line_2 : MerchantRotationItem := mkRotationItem 2 1 2 50.

Definition alice : Player := mkPlayer 1 1001 100.
Definition somewhere : Interaction := mkInteraction 1001 (Some 55).

(** A shop with a running rotation, one with none yet, a closed one, and
    one configured for rotations of size zero. *)
Definition db_running : DB :=
  mkDB settings_open catalog [rotation_1] [line_1; line_2] [alice] [] [].
Definition db_fresh : DB := mkDB settings_open catalog [] [] [alice] [] [].
Definition db_closed : DB :=
  mkDB settings_closed catalog [rotation_1] [line_1; line_2] [alice] [] [].

(** A world whose clock stands at [t], whose random source keeps yielding
    [1/2], and whose store operations fail as [fs] says. *)
Definition world_at (d : DB) (t : datetime) (fs : list bool) : World :=
  mkWorld d (fun _ => t) 0 (fun _ => 1 # 2)%Q 0 fs.

(** Stores in which alice bought a moment ago. *)
Definition recent_purchase : MerchantPurchase := mkPurchase 1 1 1 900.
Definition db_running_bought : DB :=
  mkDB settings_open catalog [rotation_1] [line_1; line_2] [alice] [] [recent_purchase].
Definition db_closed_bought : DB :=
  mkDB settings_closed catalog [rotation_1] [line_1; line_2] [alice] [] [recent_purchase].

(** A store whose first rotation has expired and been superseded. *)
Definition rotation_2 : MerchantRotation :=
  mkRotation 2 (timedelta_minutes 60) (timedelta_minutes 120).
Definition line_3 : MerchantRotationItem := mkRotationItem 3 2 3 10.
Definition db_superseded : DB :=
  mkDB settings_open catalog [rotation_1; rotation_2] [line_1; line_2; line_3]
       [alice] [] [].

(** ** Two purchases racing *)









(** ** The rest of the cog *)

(** [_rotation_refresher]: the body of the loop that runs every five
    minutes. *)
Definition _rotation_refresher : Task unit :=
  _ <~ ensure_rotation ;; Return tt.

(** [n] iterations of the loop, one after the other, as long as none
    raises. *)
Fixpoint refresher_ticks (n : nat) : M unit :=
  match n with
  | O => ret tt
  | S n' => (run _rotation_refresher ;;; refresher_ticks n')%M
  end.

Module Completion.
Import String.
Local Open Scope string_scope.

(** [_get_currency_name]: [settings.currency_name or "coins"], the setting
    of the host application being [None] or a string. *)
Definition _get_currency_name (currency_name : option string) : string :=
  match currency_name with
  | Some (String c s) => String c s
  | _ => "coins"
  end.

(** [app_commands.Choice(name=..., value=...)] *)
Record Choice := mkChoice {
  name : string;
  value : Z
}.

(** [needle in hay] *)
Fixpoint contains (needle hay : string) : bool :=
  prefix needle hay ||
  match hay with
  | EmptyString => false
  | String _ hay' => contains needle hay'
  end.

(** An integer inside an f-string. *)
Definition str (z : Z) : string :=
  DecimalString.NilZero.string_of_int (Z.to_int z).

Section Autocomplete.
(** [MerchantItem.label] is declared in [models.py], which is not among the
    sources, and [lower] is [str.lower]; both are parameters here, with the
    currency name configured in the host application. *)
Variable label : MerchantItem -> string.
Variable lower : string -> string.
Variable currency_name : option string.

(** [f"{e.item.label} ({e.price_snapshot} {self._get_currency_name()})"] *)
Definition choice_label (e : Entry) : string :=
  label (snd e) ++ " (" ++ str (price_snapshot (fst e)) ++ " "
    ++ _get_currency_name currency_name ++ ")".

(** The loop of [buy_autocomplete] over the entries. *)
Fixpoint collect_choices (current : string) (entries : list Entry)
    (choices : list Choice) : list Choice :=
  match entries with
  | [] => choices
  | e :: rest =>
      let label := choice_label e in
      if contains (lower current) (lower label)
      then collect_choices current rest
             (choices ++ [mkChoice label (entry_id (fst e))])%list
      else collect_choices current rest choices
  end.

(** [buy_autocomplete] *)
Definition buy_autocomplete (interaction : Interaction) (current : string)
  : Task (list Choice) :=
  rotation <~ _get_active_rotation ;;
  match rotation with
  | None => Return []
  | Some rotation =>
      entries <~ _get_rotation_entries rotation ;;
      Return (firstn 25 (collect_choices current entries []))
  end.
End Autocomplete.

End Completion.

(** ** Vocabulary of the further statements *)

(** Whether the next store operation fails. *)
Definition next_fails (fs : list bool) : bool :=
  match fs with
  | true :: _ => true
  | _ => false
  end.

(** Every row of a table points to rows that exist: each line item to a
    rotation and to a catalog item. *)
Definition references_resolve (d : DB) : Prop :=
  forall e, In e (rotation_items d) ->
    (exists r, In r (rotations d) /\ rotation_id r = entry_rotation e) /\
    (exists i, In i (items d) /\ item_id i = entry_item e).

(** The keys of the tables the rotation manager writes are unique. *)
Definition rotation_keys_unique (d : DB) : Prop :=
  NoDup (map rotation_id (rotations d)) /\ NoDup (map entry_id (rotation_items d)).

(** The keys of the tables a purchase writes are unique. *)
Definition purchase_keys_unique (d : DB) : Prop :=
  NoDup (map player_pk (players d)) /\ NoDup (map instance_id (instances d)) /\
  NoDup (map purchase_id (purchases d)).

(** No player owes money. *)
Definition solvent (d : DB) : Prop :=
  forall p, In p (players d) -> 0 <= money p.


(** A shop whose rotations are configured to last no time at all. *)
Definition settings_instant : MerchantSettings := mkSettings true 2 0 30 None.
Definition db_instant : DB := mkDB settings_instant catalog [] [] [alice] [] [].

(** The running shop with a second player. *)
Definition bob : Player := mkPlayer 2 1002 40.
Definition db_two : DB :=
  mkDB settings_open catalog [rotation_1] [line_1; line_2] [alice; bob] [] [].
(** * Properties *)

(** ** Running tasks *)

Lemma run_tbind {A B} (t : Task A) (f : A -> Task B) (w : World) :
  run (tbind t f) w =
  match run t w with
  | (Ok a, w') => run (f a) w'
  | (Raised e, w') => (Raised e, w')
  end.
Proof.
  revert w. induction t as [a | X op k IH]; intro w; simpl.
  - reflexivity.
  - destruct (op w) as [[x | e] w']; [apply IH | reflexivity].
Qed.

Lemma preserves_run {R} (P : DB -> DB -> Prop) (t : Task R) :
  (forall d, P d d) -> (forall a b c, P a b -> P b c -> P a c) ->
  preserves P t -> forall w, P (db w) (db (snd (run t w))).
Proof.
  intros Hrefl Htrans. induction t as [r | X op k IH]; simpl; intros Ht w.
  - apply Hrefl.
  - destruct Ht as [Hop Hk]. specialize (Hop w).
    destruct (op w) as [[x | e] w']; simpl in *.
    + eapply Htrans; [exact Hop | apply IH, Hk].
    + exact Hop.
Qed.

Lemma db_op_db {A} (f : DB -> Result A * DB) (w : World) :
  db (snd (db_op f w)) = db w \/ db (snd (db_op f w)) = snd (f (db w)).
Proof.
  unfold db_op. destruct (faults w) as [| [|] fs]; simpl.
  - right. destruct (f (db w)); reflexivity.
  - left. reflexivity.
  - right. destruct (f (db w)); reflexivity.
Qed.

Lemma db_query_db {A} (q : DB -> A) (w : World) : db (snd (db_query q w)) = db w.
Proof. destruct (db_op_db (fun d => (Ok (q d), d)) w) as [H | H]; exact H. Qed.

(** ** Sample runs *)

(** With the random source at [1/2]: of the weights 5, 1 and 9 the third is
    hit first, then the first of 5 and 1. *)
Example sample_selection :
  fst (select_items 3 [item_a; item_b; item_c] [] (world_at db_fresh 0 []))
  = Ok [item_c; item_a; item_b].
Proof. reflexivity. Qed.

Example sample_view :
  fst (run (view somewhere) (world_at db_fresh 1000 []))
  = Ok (CurrentStock (mkRotation 1 1000 (1000 + timedelta_minutes 60))
          [(mkRotationItem 1 1 3 10, item_c); (mkRotationItem 2 1 1 80, item_a)]).
Proof. reflexivity. Qed.

Example sample_buy :
  let r := run (buy somewhere 1) (world_at db_running 1000 []) in
  fst r = Ok (Bought (mkBallInstance 1 101 1 None (Some 55) true)) /\
  players (db (snd r)) = [mkPlayer 1 1001 20] /\
  purchases (db (snd r)) = [mkPurchase 1 1 1 1000] /\
  fst (run (buy somewhere 2) (snd r)) = Ok (OnCooldown (1000 + timedelta_seconds 30)).
Proof. repeat split. Qed.

(** ** Weighted choice *)

Lemma accumulate_from_length (acc : Z) (ws : list Z) :
  length (accumulate_from acc ws) = length ws.
Proof.
  revert acc. induction ws as [| x ws IH]; intro acc; simpl; [| rewrite IH]; reflexivity.
Qed.

Lemma last_accumulate_from (acc d : Z) (ws : list Z) :
  ws <> [] -> last (accumulate_from acc ws) d = acc + zsum ws.
Proof.
  revert acc. induction ws as [| x ws IH]; intros acc Hne; [congruence |].
  destruct ws as [| y ws'].
  - simpl. lia.
  - change (last (accumulate_from acc (x :: y :: ws')) d)
      with (last (accumulate_from (acc + x) (y :: ws')) d).
    rewrite IH by discriminate. simpl. lia.
Qed.

Lemma zsum_pos (ws : list Z) :
  ws <> [] -> Forall (fun x => 1 <= x) ws -> 0 < zsum ws.
Proof.
  intros Hne Hall. induction Hall as [| x ws Hx Hall IH]; [congruence |].
  simpl. destruct ws as [| y ws'].
  - simpl. lia.
  - assert (0 < zsum (y :: ws')) by (apply IH; discriminate). lia.
Qed.


Lemma bisect_le (a : list Z) (x : Q) (hi : nat) : (bisect a x hi <= hi)%nat.
Proof.
  revert a. induction hi as [| hi IH]; intros [| c a]; simpl; try lia.
  destruct (Qle_bool (inject_Z c) x); [specialize (IH a) |]; lia.
Qed.


Lemma pool_weights_ge_1 (pool : list MerchantItem) :
  Forall (fun x => 1 <= x) (pool_weights pool).
Proof.
  unfold pool_weights. induction pool as [| i pool IH]; simpl; constructor; [lia | exact IH].
Qed.


Lemma choice_index_lt (ws : list Z) (u : Q) :
  ws <> [] -> (choice_index ws u < length ws)%nat.
Proof.
  intro Hne. unfold choice_index.
  assert (H := bisect_le (accumulate ws) (u * inject_Z (last (accumulate ws) 0))
                 (length ws - 1)).
  destruct ws; [congruence | simpl in *; lia].
Qed.


Lemma random_choices_spec (pool : list MerchantItem) (w : World) :
  pool <> [] ->
  exists x, random_choices pool (pool_weights pool) w = (Ok x, drawn 1 w) /\
            draw pool (rng w (draws w)) = Some x.
Proof.
  intro Hne.
  assert (Hw : pool_weights pool <> []) by (destruct pool; [congruence | discriminate]).
  assert (Hlen : length (pool_weights pool) = length pool) by apply length_map.
  assert (Hlt := choice_index_lt _ (rng w (draws w)) Hw). rewrite Hlen in Hlt.
  destruct (nth_error pool (choice_index (pool_weights pool) (rng w (draws w))))
    as [x |] eqn:Hx; [| apply nth_error_None in Hx; lia].
  exists x. split; [| exact Hx].
  unfold random_choices, accumulate.
  rewrite accumulate_from_length, Hlen, Nat.eqb_refl. cbn [negb].
  destruct (accumulate_from 0 (pool_weights pool)) as [| c cs] eqn:Hacc.
  { apply (f_equal (@length Z)) in Hacc. rewrite accumulate_from_length in Hacc.
    destruct (pool_weights pool); [congruence | discriminate]. }
  rewrite <- Hacc, last_accumulate_from by exact Hw.
  assert (Hpos := zsum_pos _ Hw (pool_weights_ge_1 pool)).
  destruct (Z.leb_spec (0 + zsum (pool_weights pool)) 0) as [Hle | _]; [lia |].
  unfold bind, random_random. rewrite Hx. reflexivity.
Qed.

(** ** Removal from the pool *)

Lemma item_eqb_eq (a b : MerchantItem) : item_eqb a b = true <-> item_id a = item_id b.
Proof. unfold item_eqb. apply Z.eqb_eq. Qed.

Lemma list_remove_some (x : MerchantItem) (pool : list MerchantItem) :
  In x pool -> exists r, list_remove x pool = Some r.
Proof.
  induction pool as [| y pool IH]; intro Hin; [destruct Hin |].
  simpl. destruct (item_eqb y x) eqn:Hyx; [eauto |].
  destruct Hin as [-> | Hin].
  - unfold item_eqb in Hyx. rewrite Z.eqb_refl in Hyx. discriminate.
  - destruct (IH Hin) as [r ->]. eauto.
Qed.

Lemma list_remove_length (x : MerchantItem) (pool r : list MerchantItem) :
  list_remove x pool = Some r -> length pool = S (length r).
Proof.
  revert r. induction pool as [| y pool IH]; intros r H; simpl in H; [discriminate |].
  destruct (item_eqb y x).
  - injection H as <-. reflexivity.
  - destruct (list_remove x pool) as [r' |]; [| discriminate].
    injection H as <-. simpl. f_equal. apply IH. reflexivity.
Qed.

Lemma list_remove_incl (x : MerchantItem) (pool r : list MerchantItem) :
  list_remove x pool = Some r -> incl r pool.
Proof.
  revert r. induction pool as [| y pool IH]; intros r H; simpl in H; [discriminate |].
  destruct (item_eqb y x).
  - injection H as <-. apply incl_tl, incl_refl.
  - destruct (list_remove x pool) as [r' |]; [| discriminate].
    injection H as <-. apply incl_cons; [left; reflexivity |].
    apply incl_tl, IH. reflexivity.
Qed.

Lemma list_remove_NoDup (x : MerchantItem) (pool r : list MerchantItem) :
  NoDup (map item_id pool) ->
  list_remove x pool = Some r ->
  NoDup (map item_id r) /\ ~ In (item_id x) (map item_id r).
Proof.
  revert r. induction pool as [| y pool IH]; intros r Hnd H; simpl in H; [discriminate |].
  simpl in Hnd. apply NoDup_cons_iff in Hnd. destruct Hnd as [Hy Hnd].
  destruct (item_eqb y x) eqn:Hyx.
  - injection H as <-. apply item_eqb_eq in Hyx. rewrite <- Hyx. tauto.
  - destruct (list_remove x pool) as [r' |] eqn:Hr; [| discriminate].
    injection H as <-. destruct (IH r' Hnd eq_refl) as [Hnd' Hx].
    assert (Hsub : incl (map item_id r') (map item_id pool))
      by (apply incl_map, (list_remove_incl _ _ _ Hr)).
    split.
    + simpl. constructor; [intro Hc; apply Hy, Hsub, Hc | exact Hnd'].
    + simpl. intros [Heq | Hin]; [| exact (Hx Hin)].
      apply item_eqb_eq in Heq. congruence.
Qed.

(** ** The sampling loop *)

(** The loop returns; it has drawn [k] times, and its [j]-th pick is the
    weighted draw from what the earlier picks left of the pool. *)
Lemma select_items_spec (k : nat) :
  forall (pool selected : list MerchantItem) (w : World),
    (k <= length pool)%nat ->
    exists chosen,
      select_items k pool selected w = (Ok (selected ++ chosen), drawn k w) /\
      length chosen = k /\
      incl chosen pool /\
      (NoDup (map item_id pool) -> NoDup (map item_id chosen)) /\
      forall j, (j < k)%nat ->
        nth_error chosen j =
        draw (remaining pool (firstn j chosen)) (rng w (j + draws w)).
Proof.
  induction k as [| k IH]; intros pool selected w Hk.
  - exists []. simpl. rewrite app_nil_r. destruct w.
    repeat split; try constructor; try (intros; lia). intros x [].
  - assert (Hne : pool <> []) by (destruct pool; [simpl in Hk; lia | discriminate]).
    destruct (random_choices_spec pool w Hne) as (x & Hrc & Hdraw).
    assert (Hin : In x pool) by (eapply nth_error_In; exact Hdraw).
    destruct (list_remove_some x pool Hin) as [pool' Hrm].
    assert (Hlen := list_remove_length _ _ _ Hrm).
    destruct (IH pool' (selected ++ [x]) (drawn 1 w))
      as (chosen & Hrun & Hl & Hincl & Hndc & Hnth); [lia |].
    exists (x :: chosen).
    assert (Hsub := list_remove_incl _ _ _ Hrm).
    split; [| split; [| split; [| split]]].
    + cbn [select_items]. unfold bind. fold (pool_weights pool). rewrite Hrc.
      unfold pool_remove. rewrite Hrm. unfold ret at 1. rewrite Hrun.
      rewrite <- app_assoc. destruct w; unfold drawn; simpl.
      repeat f_equal. lia.
    + simpl. congruence.
    + apply incl_cons; [exact Hin |]. eapply incl_tran; eassumption.
    + intro Hnd. destruct (list_remove_NoDup x pool pool' Hnd Hrm) as [Hnd' Hfresh].
      simpl. constructor; [| exact (Hndc Hnd')].
      intro Hc. apply Hfresh. apply (incl_map item_id Hincl). exact Hc.
    + intros [| j] Hj.
      * simpl. symmetry. exact Hdraw.
      * cbn [nth_error firstn]. unfold remaining. cbn [fold_left]. rewrite Hrm.
        fold (remaining pool' (firstn j chosen)).
        rewrite Hnth by lia. destruct w; simpl. repeat f_equal. lia.
Qed.





(** ** Stepping through effect calls *)

Section Steps.
Variables (d : DB) (clk : nat -> datetime) (tk : nat) (rg : nat -> Q) (dr : nat).
Variable fs : list bool.

Lemma db_op_calm {A} (f : DB -> Result A * DB) :
  db_op f (mkWorld d clk tk rg dr []) =
  (fst (f d), mkWorld (snd (f d)) clk tk rg dr []).
Proof. unfold db_op. simpl. destruct (f d); reflexivity. Qed.

Lemma db_query_calm {A} (q : DB -> A) :
  db_query q (mkWorld d clk tk rg dr []) = (Ok (q d), mkWorld d clk tk rg dr []).
Proof. reflexivity. Qed.

Lemma db_query_pass {A} (q : DB -> A) :
  db_query q (mkWorld d clk tk rg dr (false :: fs)) =
  (Ok (q d), mkWorld d clk tk rg dr fs).
Proof. reflexivity. Qed.

Lemma db_query_fault {A} (q : DB -> A) :
  db_query q (mkWorld d clk tk rg dr (true :: fs)) =
  (Raised DatabaseError, mkWorld d clk tk rg dr fs).
Proof. reflexivity. Qed.

Lemma timezone_now_reads :
  timezone_now (mkWorld d clk tk rg dr fs) =
  (Ok (clk tk), mkWorld d clk (S tk) rg dr fs).
Proof. reflexivity. Qed.
End Steps.

(** One effect call of a task run on an explicit world. *)
Ltac step :=
  cbn [run tbind call];
  first [ rewrite db_query_calm | rewrite db_query_pass | rewrite db_query_fault
        | rewrite timezone_now_reads ];
  cbn [run tbind call].

(** ** Rotation creation *)

Lemma create_new_rotation_run (config : MerchantSettings)
    (d : DB) (clk : nat -> datetime) (tk : nat) (rg : nat -> Q) (dr : nat) :
  enabled_items d <> [] ->
  let w := mkWorld d clk tk rg dr [] in
  let k := Z.to_nat (rotation_size config d) in
  exists selected,
    select_items k (enabled_items d) [] w = (Ok selected, drawn k w) /\
    length selected = k /\
    run (_create_new_rotation config) w =
    (Ok (Some (new_rotation_row config (clk tk) d)),
     mkWorld (rotation_created config (clk tk) selected d) clk (S tk) rg (k + dr) []).
Proof.
  intros Hne w k. subst k. unfold rotation_size.
  destruct (enabled_items d) as [| i0 rest] eqn:Hitems; [congruence |].
  set (k := Z.to_nat (Z.min (items_per_rotation config) (Z.of_nat (length (i0 :: rest))))).
  assert (Hk : (k <= length (i0 :: rest))%nat) by (subst k; lia).
  destruct (select_items_spec k (i0 :: rest) [] w Hk)
    as (selected & Hrun & Hlen & _).
  simpl in Hrun. exists selected. split; [exact Hrun |]. split; [exact Hlen |].
  unfold _create_new_rotation, w. step.
  rewrite Hitems. cbn [tbind call run]. fold k. fold w.
  rewrite Hrun. reflexivity.
Qed.

Lemma create_new_rotation_write_fails (config : MerchantSettings)
    (d : DB) (clk : nat -> datetime) (tk : nat) (rg : nat -> Q) (dr : nat)
    (fs : list bool) :
  enabled_items d <> [] ->
  let k := Z.to_nat (rotation_size config d) in
  run (_create_new_rotation config) (mkWorld d clk tk rg dr (false :: true :: fs)) =
  (Raised DatabaseError, mkWorld d clk (S tk) rg (k + dr) fs).
Proof.
  intros Hne k. subst k. unfold rotation_size.
  destruct (enabled_items d) as [| i0 rest] eqn:Hitems; [congruence |].
  set (k := Z.to_nat (Z.min (items_per_rotation config) (Z.of_nat (length (i0 :: rest))))).
  assert (Hk : (k <= length (i0 :: rest))%nat) by (subst k; lia).
  destruct (select_items_spec k (i0 :: rest) [] (mkWorld d clk tk rg dr (true :: fs)) Hk)
    as (selected & Hrun & _).
  simpl in Hrun.
  unfold _create_new_rotation. step.
  rewrite Hitems. cbn [tbind call run]. fold k.
  rewrite Hrun. reflexivity.
Qed.


(** What [ensure_rotation] does when its first two store operations
    succeed and the merchant is enabled. *)
Lemma ensure_rotation_run
    (d : DB) (clk : nat -> datetime) (tk : nat) (rg : nat -> Q) (dr : nat)
    (fs : list bool) :
  enabled (settings d) = true ->
  let w' := mkWorld d clk (S (S tk)) rg dr fs in
  run ensure_rotation (mkWorld d clk tk rg dr (false :: false :: fs)) =
  match active_rotation_at (clk (S tk)) d with
  | Some r => if clk tk <? ends_at r then (Ok (Some r), w')
              else run (_create_new_rotation (settings d)) w'
  | None => run (_create_new_rotation (settings d)) w'
  end.
Proof.
  intros He w'. unfold ensure_rotation, _get_active_rotation, MerchantSettings_load.
  step. rewrite He. cbn [negb]. step. step. step.
  destruct (active_rotation_at (clk (S tk)) d) as [r |]; [| reflexivity].
  destruct (clk tk <? ends_at r); reflexivity.
Qed.

Lemma ensure_rotation_run_calm
    (d : DB) (clk : nat -> datetime) (tk : nat) (rg : nat -> Q) (dr : nat) :
  enabled (settings d) = true ->
  let w' := mkWorld d clk (S (S tk)) rg dr [] in
  run ensure_rotation (mkWorld d clk tk rg dr []) =
  match active_rotation_at (clk (S tk)) d with
  | Some r => if clk tk <? ends_at r then (Ok (Some r), w')
              else run (_create_new_rotation (settings d)) w'
  | None => run (_create_new_rotation (settings d)) w'
  end.
Proof.
  intros He w'. unfold ensure_rotation, _get_active_rotation, MerchantSettings_load.
  step. rewrite He. cbn [negb]. step. step. step.
  destruct (active_rotation_at (clk (S tk)) d) as [r |]; [| reflexivity].
  destruct (clk tk <? ends_at r); reflexivity.
Qed.

Lemma ensure_rotation_disabled
    (d : DB) (clk : nat -> datetime) (tk : nat) (rg : nat -> Q) (dr : nat) :
  enabled (settings d) = false ->
  run ensure_rotation (mkWorld d clk tk rg dr []) = (Ok None, mkWorld d clk tk rg dr []).
Proof.
  intro He. unfold ensure_rotation, MerchantSettings_load.
  step. rewrite He. reflexivity.
Qed.

Lemma first_by_desc_In {A} (key : A -> Z) (rows : list A) (x : A) :
  first_by_desc key rows = Some x ->
  In x rows /\ forall y, In y rows -> key y <= key x.
Proof.
  revert x. induction rows as [| z rows IH]; intros x H; simpl in H; [discriminate |].
  destruct (first_by_desc key rows) as [y |] eqn:Hy.
  - destruct (IH y eq_refl) as [Hin Hmax].
    destruct (Z.ltb_spec (key z) (key y)) as [Hlt | Hge]; injection H as <-.
    + split; [right; exact Hin |]. intros y' [<- | Hy']; [lia | apply Hmax, Hy'].
    + split; [left; reflexivity |].
      intros y' [<- | Hy']; [lia | specialize (Hmax y' Hy'); lia].
  - injection H as <-. destruct rows as [| z' rows'].
    + split; [left; reflexivity |]. intros y [<- | []]. lia.
    + simpl in Hy. destruct (first_by_desc key rows'); [destruct (_ <? _) |]; discriminate.
Qed.

(** The rotation [_get_active_rotation] finds has not ended, and no
    rotation that has not ended started later. *)
Lemma active_rotation_at_spec (now : datetime) (d : DB) (r : MerchantRotation) :
  active_rotation_at now d = Some r ->
  In r (rotations d) /\ now < ends_at r /\
  forall r', In r' (rotations d) -> now < ends_at r' -> starts_at r' <= starts_at r.
Proof.
  unfold active_rotation_at. intro H. apply first_by_desc_In in H.
  destruct H as [Hin Hmax]. apply filter_In in Hin. destruct Hin as [Hin Hlt].
  apply Z.ltb_lt in Hlt. split; [exact Hin |]. split; [exact Hlt |].
  intros r' Hr' Hlt'. apply Hmax. apply filter_In. split; [exact Hr' |].
  apply Z.ltb_lt. exact Hlt'.
Qed.

(** ** ensure_rotation *)

Lemma line_items_fields (pk : Z) (r : MerchantRotation) (selected : list MerchantItem) :
  length (line_items pk r selected) = length selected /\
  map price_snapshot (line_items pk r selected) = map price selected /\
  map entry_item (line_items pk r selected) = map item_id selected /\
  Forall (fun e => entry_rotation e = rotation_id r) (line_items pk r selected).
Proof.
  revert pk. induction selected as [| i sel IH]; intro pk; simpl.
  - repeat split. constructor.
  - destruct (IH (pk + 1)) as (H1 & H2 & H3 & H4).
    rewrite H1, H2, H3. repeat split. constructor; [reflexivity | exact H4].
Qed.

(** [ensure_rotation] on a store with no unexpired rotation and a non-empty
    catalog, no store operation failing: the loop selects, and the rotation,
    its line items and the audit timestamp are written. *)
Lemma ensure_rotation_creates (w : World) :
  faults w = [] ->
  enabled (settings (db w)) = true ->
  active_rotation_at (clock w (S (tick w))) (db w) = None ->
  enabled_items (db w) <> [] ->
  let config := settings (db w) in
  let k := Z.to_nat (rotation_size config (db w)) in
  let now := clock w (S (S (tick w))) in
  exists selected,
    select_items k (enabled_items (db w)) [] (advance 2 w)
      = (Ok selected, drawn k (advance 2 w)) /\
    length selected = k /\
    incl selected (enabled_items (db w)) /\
    run ensure_rotation w =
    (Ok (Some (new_rotation_row config now (db w))),
     mkWorld (rotation_created config now selected (db w))
             (clock w) (3 + tick w) (rng w) (k + draws w) []).
Proof.
  intros Hf He Hact Hne config k now.
  destruct w as [d clk tk rg dr fs]. cbn [db clock tick rng draws faults] in *. subst fs.
  assert (Hk : (k <= length (enabled_items d))%nat)
    by (subst k; unfold rotation_size; lia).
  destruct (select_items_spec k (enabled_items d) [] (mkWorld d clk (S (S tk)) rg dr []) Hk)
    as (selected & Hsel & Hlen & Hincl & _).
  destruct (create_new_rotation_run config d clk (S (S tk)) rg dr Hne)
    as (selected' & Hsel' & _ & Hrun).
  cbn zeta in Hsel'. fold k in Hsel'. rewrite Hsel in Hsel'. simpl in Hsel'.
  injection Hsel' as <-.
  exists selected. split; [exact Hsel |]. split; [exact Hlen |]. split; [exact Hincl |].
  rewrite (ensure_rotation_run_calm d clk tk rg dr He), Hact. exact Hrun.
Qed.

(** C5 (as stated) fails: with the merchant disabled, [ensure_rotation]
    returns no rotation although an unexpired one exists. *)
Lemma ensure_rotation_disabled_returns_none :
  let w := world_at db_closed 1000 [] in
  active_rotation_at (clock w (tick w)) (db w) = Some rotation_1 /\
  clock w (tick w) < ends_at rotation_1 /\
  run ensure_rotation w = (Ok None, w).
Proof. vm_compute. repeat split. Qed.

(** C5 (amended). When the merchant is enabled and an unexpired rotation
    [r0] exists, [ensure_rotation] returns an unexpired rotation of the
    store, the most recently started one, which is [r0] when no other is
    unexpired; the store is left as it was, only the clock has been read
    twice.  A second call made while the returned rotation is still the
    active one returns it again and leaves the store as it was. *)
Theorem ensure_rotation_returns_active_unchanged (w : World) (r0 : MerchantRotation) :
  faults w = [] ->
  enabled (settings (db w)) = true ->
  In r0 (rotations (db w)) ->
  clock w (S (tick w)) < ends_at r0 ->
  clock w (tick w) <= clock w (S (tick w)) ->
  exists r,
    run ensure_rotation w = (Ok (Some r), advance 2 w) /\
    db (advance 2 w) = db w /\
    In r (rotations (db w)) /\
    clock w (S (tick w)) < ends_at r /\
    (forall r', In r' (rotations (db w)) -> clock w (S (tick w)) < ends_at r' ->
                starts_at r' <= starts_at r) /\
    ((forall r', In r' (rotations (db w)) -> clock w (S (tick w)) < ends_at r' ->
                 r' = r0) -> r = r0) /\
    (clock w (S (S (tick w))) < ends_at r ->
     active_rotation_at (clock w (S (S (S (tick w))))) (db w) = Some r ->
     run ensure_rotation (advance 2 w) = (Ok (Some r), advance 4 w) /\
     db (advance 4 w) = db w).
Proof.
  intros Hf He Hin0 Hlive0 Hmono.
  destruct w as [d clk tk rg dr fs]. cbn [db clock tick rng draws faults] in *. subst fs.
  destruct (active_rotation_at (clk (S tk)) d) as [r |] eqn:Hact.
  2:{ exfalso. unfold active_rotation_at in Hact.
      assert (Hf0 : In r0 (filter (fun r => clk (S tk) <? ends_at r) (rotations d))).
      { apply filter_In. split; [exact Hin0 | apply Z.ltb_lt; exact Hlive0]. }
      destruct (filter (fun r => clk (S tk) <? ends_at r) (rotations d)) as [| x l];
        [destruct Hf0 |].
      simpl in Hact. destruct (first_by_desc starts_at l); [destruct (_ <? _) |];
        discriminate. }
  destruct (active_rotation_at_spec _ _ _ Hact) as (Hin & Hlive & Hmax).
  exists r. split.
  - rewrite (ensure_rotation_run_calm d clk tk rg dr He), Hact.
    assert (Hnow : (clk tk <? ends_at r) = true) by (apply Z.ltb_lt; lia).
    rewrite Hnow. reflexivity.
  - split; [reflexivity |]. split; [exact Hin |]. split; [exact Hlive |].
    split; [exact Hmax |]. split; [intro Huniq; exact (Huniq r Hin Hlive) |].
    intros Hnow2 Hact2. split; [| reflexivity].
    unfold advance. cbn [db clock tick rng draws faults Nat.add].
    rewrite (ensure_rotation_run_calm d clk (S (S tk)) rg dr He), Hact2.
    apply Z.ltb_lt in Hnow2. rewrite Hnow2. reflexivity.
Qed.

Lemma ensure_rotation_returns_active_unchanged_witness :
  let w := world_at db_running 1000 [] in
  run ensure_rotation w = (Ok (Some rotation_1), advance 2 w) /\
  run ensure_rotation (advance 2 w) = (Ok (Some rotation_1), advance 4 w).
Proof.
  intro w.
  destruct (ensure_rotation_returns_active_unchanged w rotation_1)
    as (r & H1 & _ & _ & _ & _ & Hr & H2).
  - reflexivity.
  - reflexivity.
  - left. reflexivity.
  - reflexivity.
  - vm_compute. discriminate.
  - assert (Heq : r = rotation_1).
    { apply Hr. intros r' [<- | []] _. reflexivity. }
    subst r. split; [exact H1 |]. apply H2; reflexivity.
Defined.




(** C4 (as stated) fails: when the bulk write of the line items fails, the
    rotation row written just before stays in the store, without line
    items. *)
Lemma rotation_row_survives_failed_bulk_create :
  let w := world_at db_fresh 1000 [false; false; false; false; true] in
  let r := mkRotation 1 1000 (1000 + timedelta_minutes 60) in
  fst (run ensure_rotation w) = Raised DatabaseError /\
  rotations (db (snd (run ensure_rotation w))) = [r] /\
  rotation_items (db (snd (run ensure_rotation w))) = [].
Proof. vm_compute. repeat split. Qed.

(** C4 (amended). When a new rotation is generated and no store operation
    fails, the rotation row, with [starts_at = now] and
    [ends_at = now + rotation_minutes], and its [k] line items, each holding
    the catalog price of its item as [price_snapshot], are in the store
    afterwards, and [last_rotation_at] is [now].  The row is written first
    and the line items by a second store operation; when the write of the
    row fails, neither is in the store. *)
Theorem rotation_creation_writes_row_then_items (w : World) :
  enabled (settings (db w)) = true ->
  active_rotation_at (clock w (S (tick w))) (db w) = None ->
  enabled_items (db w) <> [] ->
  let config := settings (db w) in
  let k := Z.to_nat (rotation_size config (db w)) in
  let now := clock w (S (S (tick w))) in
  let r := new_rotation_row config now (db w) in
  (exists selected w',
     select_items k (enabled_items (db w)) [] (advance 2 (set_faults [] w))
       = (Ok selected, drawn k (advance 2 (set_faults [] w))) /\
     run ensure_rotation (set_faults [] w) = (Ok (Some r), w') /\
     starts_at r = now /\
     ends_at r = now + timedelta_minutes (rotation_minutes config) /\
     db w' = set_last_rotation_at now
               (insert_line_items (new_line_items r selected (db w))
                  (insert_rotation r (db w))) /\
     last_rotation_at (settings (db w')) = Some now /\
     length selected = k /\
     incl selected (enabled_items (db w)) /\
     length (new_line_items r selected (db w)) = length selected /\
     map price_snapshot (new_line_items r selected (db w)) = map price selected /\
     map entry_item (new_line_items r selected (db w)) = map item_id selected /\
     Forall (fun e => entry_rotation e = rotation_id r)
            (new_line_items r selected (db w))) /\
  (forall fs,
     let failed := run ensure_rotation
                     (set_faults (false :: false :: false :: true :: fs) w) in
     fst failed = Raised DatabaseError /\ db (snd failed) = db w).
Proof.
  intros He Hact Hne config k now r. split.
  - destruct (ensure_rotation_creates (set_faults [] w) eq_refl He Hact Hne)
      as (selected & Hsel & Hlen & Hincl & Hrun).
    exists selected. eexists. split; [exact Hsel |]. split; [exact Hrun |].
    destruct (line_items_fields (next_pk (map entry_id (rotation_items (db w)))) r selected)
      as (F1 & F2 & F3 & F4).
    cbn [db]. unfold new_line_items. repeat split; assumption.
  - intros fs.
    destruct w as [d clk tk rg dr fs0]. unfold set_faults.
    cbn [db clock tick rng draws faults] in *.
    rewrite (ensure_rotation_run d clk tk rg dr _ He), Hact.
    rewrite (create_new_rotation_write_fails (settings d) d clk (S (S tk)) rg dr fs Hne).
    split; reflexivity.
Qed.

Lemma rotation_creation_writes_row_then_items_witness :
  let w := world_at db_fresh 1000 [] in
  rotations (db (snd (run ensure_rotation w)))
    = [mkRotation 1 1000 (1000 + timedelta_minutes 60)] /\
  db (snd (run ensure_rotation (set_faults [false; false; false; true] w))) = db_fresh.
Proof.
  intro w.
  destruct (rotation_creation_writes_row_then_items w) as [H1 H2];
    [reflexivity | reflexivity | discriminate |].
  destruct H1 as (selected & w' & _ & Hrun & _ & _ & Hdb & _).
  split.
  - change (set_faults [] w) with w in Hrun. rewrite Hrun. cbn [snd].
    rewrite Hdb. reflexivity.
  - exact (proj2 (H2 [])).
Defined.

(** ** buy *)

(** The precondition checks of [buy] in a world where no store operation
    fails, one after the other. *)
Lemma buy_run (interaction : Interaction) (item_id : Z)
    (d : DB) (clk : nat -> datetime) (tk : nat) (rg : nat -> Q) (dr : nat) :
  run (buy interaction item_id) (mkWorld d clk tk rg dr []) =
  if negb (enabled (settings d)) then (Ok MerchantDisabled, mkWorld d clk tk rg dr [])
  else
    match active_rotation_at (clk tk) d with
    | None => (Ok NoActiveRotation, mkWorld d clk (S tk) rg dr [])
    | Some rotation =>
        match find (fun e => entry_id (fst e) =? item_id) (rotation_entries rotation d) with
        | None => (Ok NotInRotation, mkWorld d clk (S tk) rg dr [])
        | Some entry =>
            let player := fst (get_or_create (user_id interaction) d) in
            let d1 := snd (get_or_create (user_id interaction) d) in
            let funds (tk' : nat) :=
              if negb (can_afford player (price_snapshot (fst entry)))
              then (Ok NotEnoughMoney, mkWorld d1 clk tk' rg dr [])
              else buy_transaction interaction entry player (mkWorld d1 clk tk' rg dr []) in
            match last_purchase_of (player_pk player) d1 with
            | None => funds (S tk)
            | Some p =>
                let ready_at := created_at p
                                + timedelta_seconds (purchase_cooldown_seconds (settings d)) in
                if clk (S tk) <? ready_at
                then (Ok (OnCooldown ready_at), mkWorld d1 clk (S (S tk)) rg dr [])
                else funds (S (S tk))
            end
        end
    end.
Proof.
  unfold buy, _get_active_rotation, _get_rotation_entries, _get_cooldown_end,
    MerchantSettings_load.
  step. destruct (enabled (settings d)); cbn [negb]; [| reflexivity].
  step. step. destruct (active_rotation_at (clk tk) d) as [rotation |]; [| reflexivity].
  step. destruct (find (fun e => entry_id (fst e) =? item_id) (rotation_entries rotation d))
    as [entry |]; [| reflexivity].
  cbn [run tbind call]. unfold Player_aget_or_create. rewrite db_op_calm.
  destruct (get_or_create (user_id interaction) d) as [player d1]. cbn [fst snd].
  step. destruct (last_purchase_of (player_pk player) d1) as [p |].
  - step. destruct (clk (S tk) <? _); [reflexivity |].
    destruct (negb (can_afford player (price_snapshot (fst entry)))); [reflexivity |].
    cbn [run call]. destruct (buy_transaction _ _ _ _) as [[b | e] w']; reflexivity.
  - cbn [run tbind call].
    destruct (negb (can_afford player (price_snapshot (fst entry)))); [reflexivity |].
    cbn [run call]. destruct (buy_transaction _ _ _ _) as [[b | e] w']; reflexivity.
Qed.

(** The three ways the [try] block of [buy] ends, whatever store
    operations fail: the purchase is committed, or the balance read under
    the lock does not reach the price, or the unit of work failed; in the
    last two the store is as before. *)
Lemma buy_transaction_cases (interaction : Interaction) (entry : Entry)
    (player : Player) (w : World) :
  let r := buy_transaction interaction entry player w in
  (exists locked,
     player_by_pk (player_pk player) (db w) = Some locked /\
     price_snapshot (fst entry) <= money locked /\
     fst r = Ok (Bought (granted_instance interaction entry locked (db w))) /\
     db (snd r) = purchase_committed interaction entry locked (clock w (tick w)) (db w)) \/
  (exists locked,
     player_by_pk (player_pk player) (db w) = Some locked /\
     money locked < price_snapshot (fst entry) /\
     fst r = Ok TransactionInsufficientFunds /\ db (snd r) = db w) \/
  (fst r = Ok PurchaseError /\ db (snd r) = db w).
Proof.
  destruct w as [d clk tk rg dr fs].
  unfold buy_transaction, try_except, atomic, Player_select_for_update_get, player_by_pk,
    can_afford.
  cbn [db clock tick].
  destruct (find (fun p => player_pk p =? player_pk player) (players d)) as [locked |] eqn:Hfind.
  - destruct (Z.leb_spec (price_snapshot (fst entry)) (money locked)) as [Hle | Hlt].
    + destruct fs as [| [|] [| [|] [| [|] [| [|] [| [|] fs]]]]];
        unfold bind, db_op, db_update, db_op, Player_save, BallInstance_create,
          MerchantPurchase_create, bind, db_update, db_op, timezone_now, ret;
        cbn; rewrite ?Hfind; cbn;
        destruct (Z.leb_spec (price_snapshot (fst entry)) (money locked)); try lia; cbn;
        first [ right; right; split; reflexivity
              | left; exists locked; repeat split; assumption ].
    + destruct fs as [| [|] [| [|] fs]];
        unfold bind, db_op, db_update, db_op, ret;
        cbn; rewrite ?Hfind; cbn;
        destruct (Z.leb_spec (price_snapshot (fst entry)) (money locked)); try lia; cbn;
        first [ right; right; split; reflexivity
              | right; left; exists locked; repeat split; assumption ].
  - right. right.
    destruct fs as [| [|] fs];
      unfold bind, db_op, db_update, db_op, ret; cbn; rewrite ?Hfind; cbn;
      split; reflexivity.
Qed.


Lemma buy_transaction_never_throttles (interaction : Interaction) (entry : Entry)
    (player : Player) (w : World) (t : datetime) :
  fst (buy_transaction interaction entry player w) <> Ok (OnCooldown t).
Proof.
  destruct (buy_transaction_cases interaction entry player w)
    as [(l & _ & _ & H & _) | [(l & _ & _ & H & _) | [H _]]]; rewrite H; discriminate.
Qed.

Lemma get_or_create_purchases (uid : Z) (d : DB) :
  purchases (snd (get_or_create uid d)) = purchases d.
Proof. unfold get_or_create. destruct (find _ (players d)); reflexivity. Qed.

Lemma last_purchase_of_spec (pk : Z) (d : DB) (p : MerchantPurchase) :
  last_purchase_of pk d = Some p ->
  In p (purchases d) /\ purchase_player p = pk /\
  forall q, In q (purchases d) -> purchase_player q = pk -> created_at q <= created_at p.
Proof.
  unfold last_purchase_of. intro H. apply first_by_desc_In in H.
  destruct H as [Hin Hmax]. apply filter_In in Hin. destruct Hin as [Hin Hpk].
  apply Z.eqb_eq in Hpk. repeat split; try assumption.
  intros q Hq Hqpk. apply Hmax. apply filter_In. split; [exact Hq |].
  apply Z.eqb_eq. exact Hqpk.
Qed.

(** C8 (as stated) fails: a player whose last purchase is still cooling
    down is told that the item id is not in the rotation when it is not, and
    that the merchant is disabled when it is. *)
Lemma buy_cooling_down_but_rejected_earlier :
  let w := world_at db_running_bought 1000 [] in
  let w' := world_at db_closed_bought 1000 [] in
  last_purchase_of (player_pk alice) (db w) = Some recent_purchase /\
  last_purchase_of (player_pk alice) (db w') = Some recent_purchase /\
  1000 < created_at recent_purchase + timedelta_seconds 30 /\
  fst (run (buy somewhere 99) w) = Ok NotInRotation /\
  fst (run (buy somewhere 1) w') = Ok MerchantDisabled.
Proof. vm_compute. repeat split. Qed.

(** C8 (amended). A buy request that passes the first three checks (merchant
    enabled, a rotation active, the item id in it) is rejected as on cooldown
    if and only if the most recent ledger entry of the player has
    [created_at + cooldown_seconds] strictly in the future, and the reply
    then carries exactly that time; a player with no entry in the ledger is
    never rejected so. *)
Theorem buy_throttled_iff_recent_purchase
    (interaction : Interaction) (item_id : Z) (w : World)
    (rotation : MerchantRotation) (entry : Entry) :
  faults w = [] ->
  enabled (settings (db w)) = true ->
  active_rotation_at (clock w (tick w)) (db w) = Some rotation ->
  find (fun e => entry_id (fst e) =? item_id) (rotation_entries rotation (db w))
    = Some entry ->
  let pk := player_pk (fst (get_or_create (user_id interaction) (db w))) in
  let cooldown := timedelta_seconds (purchase_cooldown_seconds (settings (db w))) in
  let now := clock w (S (tick w)) in
  let reply := fst (run (buy interaction item_id) w) in
  (forall t, reply = Ok (OnCooldown t) <->
             exists p, last_purchase_of pk (db w) = Some p /\
                       t = created_at p + cooldown /\ now < t) /\
  ((exists r, reply = Ok r /\ rejection r = Some Throttled) <->
   exists p, last_purchase_of pk (db w) = Some p /\ now < created_at p + cooldown) /\
  (forall p, last_purchase_of pk (db w) = Some p ->
             In p (purchases (db w)) /\ purchase_player p = pk /\
             forall q, In q (purchases (db w)) -> purchase_player q = pk ->
                       created_at q <= created_at p) /\
  ((forall q, In q (purchases (db w)) -> purchase_player q <> pk) ->
   forall t, reply <> Ok (OnCooldown t)).
Proof.
  intros Hf He Hact Hentry pk cooldown now reply.
  destruct w as [d clk tk rg dr fs]. cbn [db clock tick rng draws faults] in *. subst fs.
  assert (Hlast : last_purchase_of pk (snd (get_or_create (user_id interaction) d))
                  = last_purchase_of pk d).
  { unfold last_purchase_of. rewrite get_or_create_purchases. reflexivity. }
  assert (Hiff : forall t, reply = Ok (OnCooldown t) <->
             exists p, last_purchase_of pk d = Some p /\
                       t = created_at p + cooldown /\ now < t).
  { intro t. subst reply. rewrite buy_run, He, Hact, Hentry. cbn [negb].
    cbv zeta. fold pk. rewrite Hlast. fold cooldown. fold now.
    destruct (last_purchase_of pk d) as [p |].
    - destruct (Z.ltb_spec now (created_at p + cooldown)) as [Hlt | Hge].
      + cbn [fst]. split.
        * intro H. injection H as <-. exists p. auto.
        * intros (p' & Hp' & -> & _). injection Hp' as <-. reflexivity.
      + split.
        * intro H. exfalso.
          destruct (negb (can_afford _ _)); [discriminate |].
          exact (buy_transaction_never_throttles _ _ _ _ _ H).
        * intros (p' & Hp' & -> & Hlt). injection Hp' as <-. lia.
    - split.
      + intro H. exfalso.
        destruct (negb (can_afford _ _)); [discriminate |].
        exact (buy_transaction_never_throttles _ _ _ _ _ H).
      + intros (p' & Hp' & _). discriminate. }
  split; [exact Hiff |]. split; [| split].
  - split.
    + intros (r & Hr & Hrej). destruct r; try discriminate.
      apply Hiff in Hr. destruct Hr as (p & Hp & -> & Hlt). exists p. auto.
    + intros (p & Hp & Hlt). exists (OnCooldown (created_at p + cooldown)).
      split; [| reflexivity]. apply Hiff. exists p. auto.
  - intros p Hp. exact (last_purchase_of_spec pk d p Hp).
  - intros Hnone t Ht. apply Hiff in Ht. destruct Ht as (p & Hp & _).
    destruct (last_purchase_of_spec pk d p Hp) as (Hin & Hpk & _).
    exact (Hnone p Hin Hpk).
Qed.

Lemma buy_throttled_iff_recent_purchase_witness :
  let w := world_at db_running_bought 1000 [] in
  fst (run (buy somewhere 1) w)
    = Ok (OnCooldown (created_at recent_purchase + timedelta_seconds 30)).
Proof.
  intro w.
  destruct (buy_throttled_iff_recent_purchase somewhere 1 w rotation_1 (line_1, item_a))
    as (Hiff & _); [reflexivity | reflexivity | reflexivity | reflexivity |].
  apply Hiff. exists recent_purchase. repeat split.
Defined.

Lemma NoDup_map_injective {A} (f : A -> Z) (l : list A) (a b : A) :
  NoDup (map f l) -> In a l -> In b l -> f a = f b -> a = b.
Proof.
  induction l as [| x l IH]; intros Hnd Ha Hb Hf; [destruct Ha |].
  simpl in Hnd. apply NoDup_cons_iff in Hnd. destruct Hnd as [Hx Hnd].
  destruct Ha as [-> | Ha], Hb as [-> | Hb].
  - reflexivity.
  - exfalso. apply Hx. rewrite Hf. apply in_map, Hb.
  - exfalso. apply Hx. rewrite <- Hf. apply in_map, Ha.
  - apply IH; assumption.
Qed.

Lemma rotation_entries_In (rotation : MerchantRotation) (d : DB) (e : Entry) :
  In e (rotation_entries rotation d) ->
  In (fst e) (rotation_items d) /\ entry_rotation (fst e) = rotation_id rotation.
Proof.
  unfold rotation_entries. intro H. apply in_flat_map in H.
  destruct H as (row & Hrow & He). apply filter_In in Hrow.
  destruct Hrow as [Hin Hrot]. apply Z.eqb_eq in Hrot.
  unfold join_item in He. destruct (find _ (items d)); [| destruct He].
  destruct He as [<- | []]. split; assumption.
Qed.

(** A line item of another rotation than [rotation] is not among the
    entries of [rotation], keys being unique. *)
Lemma foreign_line_item_not_found (rotation : MerchantRotation) (d : DB)
    (e : MerchantRotationItem) :
  NoDup (map entry_id (rotation_items d)) ->
  In e (rotation_items d) ->
  entry_rotation e <> rotation_id rotation ->
  find (fun x => entry_id (fst x) =? entry_id e) (rotation_entries rotation d) = None.
Proof.
  intros Hnd He Hrot.
  destruct (find (fun x => entry_id (fst x) =? entry_id e) (rotation_entries rotation d))
    as [x |] eqn:Hfind; [| reflexivity].
  exfalso. apply find_some in Hfind. destruct Hfind as [Hin Heq].
  apply Z.eqb_eq in Heq. apply rotation_entries_In in Hin. destruct Hin as [Hin Hr].
  assert (fst x = e) by (eapply NoDup_map_injective; eassumption).
  congruence.
Qed.

(** A line item of a rotation that has ended is answered as not in the
    rotation when another rotation is active, keys being unique. *)
Lemma stale_line_item_not_found (now : datetime) (d : DB)
    (rotation old : MerchantRotation) (e : MerchantRotationItem) :
  NoDup (map rotation_id (rotations d)) ->
  NoDup (map entry_id (rotation_items d)) ->
  active_rotation_at now d = Some rotation ->
  In old (rotations d) -> ends_at old <= now ->
  In e (rotation_items d) -> entry_rotation e = rotation_id old ->
  find (fun x => entry_id (fst x) =? entry_id e) (rotation_entries rotation d) = None.
Proof.
  intros Hndr Hnde Hact Hold Hexp He Hrot.
  apply active_rotation_at_spec in Hact. destruct Hact as (Hin & Hlive & _).
  apply foreign_line_item_not_found; [exact Hnde | exact He |].
  rewrite Hrot. intro Heq.
  assert (old = rotation) by (eapply NoDup_map_injective; eassumption).
  subst old. lia.
Qed.

(** C7. With no store fault, [buy] checks its five preconditions in order,
    each with a reply of its own: merchant disabled, no active rotation,
    item id not in the active rotation, cooldown active, not enough money.
    A line item id of an expired rotation that has been superseded is
    answered as not in the rotation ([NotFound]); in no state is the id of a
    line item of an expired rotation answered for insufficient funds or as
    on cooldown. *)
Theorem buy_precondition_order (interaction : Interaction) (item_id : Z) (w : World) :
  faults w = [] ->
  let d := db w in
  let reply := fst (run (buy interaction item_id) w) in
  let player := fst (get_or_create (user_id interaction) d) in
  let d1 := snd (get_or_create (user_id interaction) d) in
  let cooldown_end :=
    cooldown_end_at (clock w (S (tick w))) (purchase_cooldown_seconds (settings d))
                    (player_pk player) d1 in
  (enabled (settings d) = false -> reply = Ok MerchantDisabled) /\
  (enabled (settings d) = true ->
   active_rotation_at (clock w (tick w)) d = None -> reply = Ok NoActiveRotation) /\
  (forall rotation,
     enabled (settings d) = true ->
     active_rotation_at (clock w (tick w)) d = Some rotation ->
     (find (fun e => entry_id (fst e) =? item_id) (rotation_entries rotation d) = None ->
      reply = Ok NotInRotation) /\
     (forall entry,
        find (fun e => entry_id (fst e) =? item_id) (rotation_entries rotation d)
          = Some entry ->
        (forall ready_at, cooldown_end = Some ready_at ->
                          reply = Ok (OnCooldown ready_at)) /\
        (cooldown_end = None ->
         money player < price_snapshot (fst entry) -> reply = Ok NotEnoughMoney))) /\
  (forall old e,
     NoDup (map rotation_id (rotations d)) ->
     NoDup (map entry_id (rotation_items d)) ->
     In old (rotations d) -> ends_at old <= clock w (tick w) ->
     In e (rotation_items d) -> entry_rotation e = rotation_id old ->
     entry_id e = item_id ->
     (enabled (settings d) = true ->
      forall rotation, active_rotation_at (clock w (tick w)) d = Some rotation ->
        reply = Ok NotInRotation /\ rejection NotInRotation = Some NotFound) /\
     (forall r, reply = Ok r ->
        rejection r <> Some InsufficientFunds /\ rejection r <> Some Throttled /\
        rejection r <> None)) /\
  (forall t, NoDup [MerchantDisabled; NoActiveRotation; NotInRotation;
                    OnCooldown t; NotEnoughMoney]).
Proof.
  intros Hf d reply player d1 cooldown_end.
  destruct w as [d' clk tk rg dr fs]. cbn [db clock tick rng draws faults] in *.
  subst fs d reply. rewrite buy_run. fold player. fold d1.
  split; [intros ->; reflexivity |].
  split; [intros -> ->; reflexivity |].
  split; [| split].
  - intros rotation Hen Hact. rewrite Hen, Hact. cbn [negb].
    split; [intros ->; reflexivity |].
    intros entry ->. cbv zeta. subst cooldown_end. unfold cooldown_end_at.
    destruct (last_purchase_of (player_pk player) d1) as [p |].
    + destruct (clk (S tk) <? _); split; try discriminate.
      * intros t Ht. injection Ht as <-. reflexivity.
      * intros _ Hlt. unfold can_afford.
        destruct (Z.leb_spec (price_snapshot (fst entry)) (money player)); [lia |].
        reflexivity.
    + split; [discriminate |]. intros _ Hlt. unfold can_afford.
      destruct (Z.leb_spec (price_snapshot (fst entry)) (money player)); [lia |].
      reflexivity.
  - intros old e Hndr Hnde Hold Hexp He Hrot Hid. subst item_id.
    assert (Hstale : forall rotation,
              active_rotation_at (clk tk) d' = Some rotation ->
              find (fun x => entry_id (fst x) =? entry_id e) (rotation_entries rotation d')
              = None).
    { intros rotation Hact.
      exact (stale_line_item_not_found _ d' rotation old e Hndr Hnde Hact Hold Hexp He Hrot). }
    split.
    + intros -> rotation Hact. rewrite Hact, (Hstale rotation Hact). split; reflexivity.
    + intros r. destruct (enabled (settings d')); cbn [negb fst].
      * destruct (active_rotation_at (clk tk) d') as [rotation |] eqn:Hact.
        -- rewrite (Hstale rotation eq_refl). cbn [fst]. intro Hr. injection Hr as <-.
           repeat split; discriminate.
        -- cbn [fst]. intro Hr. injection Hr as <-. repeat split; discriminate.
      * intro Hr. injection Hr as <-. repeat split; discriminate.
  - intro t. repeat constructor; simpl; intuition discriminate.
Qed.

Lemma buy_precondition_order_witness :
  let w := world_at db_superseded (timedelta_minutes 90) [] in
  fst (run (buy somewhere 1) w) = Ok NotInRotation.
Proof.
  intro w.
  destruct (buy_precondition_order somewhere 1 w) as (_ & _ & _ & H & _); [reflexivity |].
  assert (N1 : NoDup (map rotation_id (rotations (db w)))).
  { repeat constructor; simpl; intuition discriminate. }
  assert (N2 : NoDup (map entry_id (rotation_items (db w)))).
  { repeat constructor; simpl; intuition discriminate. }
  destruct (H rotation_1 line_1 N1 N2) as [Hstale _].
  - left. reflexivity.
  - vm_compute. discriminate.
  - left. reflexivity.
  - reflexivity.
  - reflexivity.
  - exact (proj1 (Hstale eq_refl rotation_2 eq_refl)).
Defined.

Lemma find_update_player (pk : Z) (p' locked : Player) (l : list Player) :
  player_pk p' = pk ->
  find (fun p => player_pk p =? pk) l = Some locked ->
  find (fun p => player_pk p =? pk)
       (map (fun q => if player_pk q =? pk then p' else q) l) = Some p'.
Proof.
  intros Hpk. induction l as [| q l IH]; intro H; simpl in *; [discriminate |].
  destruct (player_pk q =? pk) eqn:Hq.
  - rewrite Hpk, Z.eqb_refl. reflexivity.
  - rewrite Hq. apply IH. exact H.
Qed.

Lemma find_player_pk (pk : Z) (l : list Player) (p : Player) :
  find (fun q => player_pk q =? pk) l = Some p -> player_pk p = pk.
Proof. intro H. apply find_some in H. destruct H as [_ H]. apply Z.eqb_eq, H. Qed.

Lemma balance_after_purchase (interaction : Interaction) (entry : Entry)
    (locked : Player) (now : datetime) (d : DB) :
  player_by_pk (player_pk locked) d = Some locked ->
  balance_of (player_pk locked) (purchase_committed interaction entry locked now d)
  = Some (money locked - price_snapshot (fst entry)).
Proof.
  unfold player_by_pk, balance_of, purchase_committed. cbn [players insert_purchase
    insert_instance update_player]. intro H.
  cbn [player_pk debited].
  rewrite (find_update_player (player_pk locked) (debited locked entry) locked
             (players d) eq_refl H).
  reflexivity.
Qed.



(** C2. The unit of work of [buy] reads the balance again under the lock
    and debits only when that balance reaches [price_snapshot]: a purchase
    is committed only from such a balance, whatever the caller had read
    before.  When the balance read under the lock is short, or any store
    operation of the unit of work fails, the store is left exactly as it was
    (balance, inventory and ledger unchanged) and the caller is told that
    the purchase failed; no exception escapes. *)
Theorem purchase_transaction_rechecks_and_rolls_back
    (interaction : Interaction) (entry : Entry) (player : Player) (w : World) :
  let r := buy_transaction interaction entry player w in
  (exists reply, fst r = Ok reply /\
     (reply = TransactionInsufficientFunds \/ reply = PurchaseError \/
      exists instance, reply = Bought instance)) /\
  (forall instance, fst r = Ok (Bought instance) ->
     exists locked,
       player_by_pk (player_pk player) (db w) = Some locked /\
       price_snapshot (fst entry) <= money locked /\
       balance_of (player_pk player) (db (snd r))
         = Some (money locked - price_snapshot (fst entry))) /\
  (forall locked,
     player_by_pk (player_pk player) (db w) = Some locked ->
     money locked < price_snapshot (fst entry) ->
     (fst r = Ok TransactionInsufficientFunds \/ fst r = Ok PurchaseError) /\
     db (snd r) = db w) /\
  ((forall instance, fst r <> Ok (Bought instance)) ->
   db (snd r) = db w /\
   balance_of (player_pk player) (db (snd r)) = balance_of (player_pk player) (db w) /\
   instances (db (snd r)) = instances (db w) /\
   purchases (db (snd r)) = purchases (db w) /\
   exists reply, fst r = Ok reply /\
                 (rejection reply = Some InsufficientFunds \/
                  rejection reply = Some TransactionFailure)).
Proof.
  intro r. subst r.
  destruct (buy_transaction_cases interaction entry player w)
    as [(l & Hl & Hle & Hr & Hdb) | [(l & Hl & Hlt & Hr & Hdb) | [Hr Hdb]]].
  - split; [eexists; split; [exact Hr | right; right; eexists; reflexivity] |].
    split; [| split].
    + intros instance _. exists l. split; [exact Hl |]. split; [exact Hle |].
      rewrite Hdb. rewrite <- (find_player_pk _ _ _ Hl).
      apply balance_after_purchase. unfold player_by_pk in *.
      rewrite (find_player_pk _ _ _ Hl). exact Hl.
    + intros l' Hl' Hlt. rewrite Hl in Hl'. injection Hl' as <-. lia.
    + intro Hno. exfalso. exact (Hno _ Hr).
  - split; [eexists; split; [exact Hr | left; reflexivity] |].
    split; [| split].
    + intros instance H. rewrite Hr in H. discriminate.
    + intros _ _ _. split; [left; exact Hr | exact Hdb].
    + intros _. rewrite Hdb. repeat split.
      eexists. split; [exact Hr | left; reflexivity].
  - split; [eexists; split; [exact Hr | right; left; reflexivity] |].
    split; [| split].
    + intros instance H. rewrite Hr in H. discriminate.
    + intros _ _ _. split; [right; exact Hr | exact Hdb].
    + intros _. rewrite Hdb. repeat split.
      eexists. split; [exact Hr | right; reflexivity].
Qed.

(** A purchase whose ledger write fails: the debit and the grant made
    before it are undone. *)
Lemma purchase_transaction_rechecks_and_rolls_back_witness :
  let w := world_at db_running 1000 [false; false; false; true] in
  let r := buy_transaction somewhere (line_1, item_a) alice w in
  fst r = Ok PurchaseError /\ db (snd r) = db_running.
Proof.
  intros w r.
  destruct (purchase_transaction_rechecks_and_rolls_back somewhere (line_1, item_a) alice w)
    as (_ & _ & _ & H).
  destruct H as (Hdb & _).
  - intros instance Hc. vm_compute in Hc. discriminate.
  - split; [reflexivity | exact Hdb].
Defined.

(** ** Two purchases by one player, interleaved *)

Lemma find_discord_update (uid : Z) (player p' : Player) (l : list Player) :
  discord_id p' = uid -> player_pk p' = player_pk player ->
  find (fun p => discord_id p =? uid) l = Some player ->
  find (fun p => player_pk p =? player_pk player) l = Some player ->
  find (fun p => discord_id p =? uid)
       (map (fun q => if player_pk q =? player_pk p' then p' else q) l) = Some p'.
Proof.
  intros Hd Hp. rewrite Hp.
  induction l as [| q l IH]; intros H1 H2; simpl in *; [discriminate |].
  destruct (player_pk q =? player_pk player) eqn:Hq.
  - rewrite Hd, Z.eqb_refl. reflexivity.
  - destruct (discord_id q =? uid) eqn:Hdq.
    + injection H1 as ->. rewrite Z.eqb_refl in Hq. discriminate.
    + apply IH; assumption.
Qed.


Section Racer.
Variables (clk : nat -> datetime) (d0 : DB).
Variables (me rival : Interaction) (my_id : Z) (mine theirs : Entry).
Variables (rotation : MerchantRotation) (player : Player).

Hypothesis Hen : enabled (settings d0) = true.
Hypothesis Hact : forall n, active_rotation_at (clk n) d0 = Some rotation.
Hypothesis Hmine :
  find (fun e => entry_id (fst e) =? my_id) (rotation_entries rotation d0) = Some mine.
Hypothesis Hplayer :
  find (fun p => discord_id p =? user_id me) (players d0) = Some player.
Hypothesis Hpk : player_by_pk (player_pk player) d0 = Some player.
Hypothesis Hcool :
  forall n, cooldown_end_at (clk n) (purchase_cooldown_seconds (settings d0))
                            (player_pk player) d0 = None.
Hypothesis Hafford : price_snapshot (fst mine) <= money player.
Hypothesis Hrival :
  money player - price_snapshot (fst theirs) < price_snapshot (fst mine).


Let funds (ps : Player) : Task BuyReply :=
  if negb (can_afford ps (price_snapshot (fst mine))) then Return NotEnoughMoney
  else call (buy_transaction me mine ps).












End Racer.









(** ** view and buy against the rotation manager *)

Lemma same_rotations_refl (d : DB) : same_rotations d d.
Proof. repeat split. Qed.

Lemma same_rotations_trans (a b c : DB) :
  same_rotations a b -> same_rotations b c -> same_rotations a c.
Proof.
  intros (H1 & H2 & H3 & H4) (K1 & K2 & K3 & K4).
  repeat split; congruence.
Qed.

Lemma db_query_same {A} (q : DB -> A) (w : World) :
  same_rotations (db w) (db (snd (db_query q w))).
Proof. rewrite db_query_db. apply same_rotations_refl. Qed.

Lemma get_or_create_same (uid : Z) (w : World) :
  same_rotations (db w) (db (snd (Player_aget_or_create uid w))).
Proof.
  unfold Player_aget_or_create.
  destruct (db_op_db (fun d => let (p, d') := get_or_create uid d in (Ok p, d')) w)
    as [-> | ->]; [apply same_rotations_refl |].
  unfold get_or_create. destruct (find _ (players (db w))); repeat split.
Qed.

Lemma buy_transaction_same (interaction : Interaction) (entry : Entry) (player : Player)
    (w : World) :
  same_rotations (db w) (db (snd (buy_transaction interaction entry player w))).
Proof.
  destruct (buy_transaction_cases interaction entry player w)
    as [(l & _ & _ & _ & ->) | [(l & _ & _ & _ & ->) | [_ ->]]]; repeat split.
Qed.

(** No call of [buy] writes a rotation, a line item, the settings or the
    catalog, whatever fails. *)
Lemma buy_preserves_rotations (interaction : Interaction) (item_id : Z) :
  preserves same_rotations (buy interaction item_id).
Proof.
  unfold buy, _get_active_rotation, _get_rotation_entries, _get_cooldown_end,
    MerchantSettings_load.
  cbn [tbind call preserves].
  split; [apply db_query_same |]. intro config.
  destruct (negb (enabled config)); cbn [tbind call preserves]; [exact I |].
  split; [intro w; apply same_rotations_refl |]. intro now.
  split; [apply db_query_same |]. intros [rotation |]; cbn [tbind call preserves]; [| exact I].
  split; [apply db_query_same |]. intro entries.
  destruct (find (fun e => entry_id (fst e) =? item_id) entries) as [entry |];
    cbn [tbind call preserves]; [| exact I].
  split; [apply get_or_create_same |]. intro player.
  split; [apply db_query_same |]. intros [p |]; cbn [tbind call preserves].
  - split; [intro w; apply same_rotations_refl |]. intro now'.
    destruct (now' <? _); cbn [tbind call preserves]; [exact I |].
    destruct (negb (can_afford player (price_snapshot (fst entry))));
      cbn [tbind call preserves]; [exact I |].
    split; [apply buy_transaction_same | intro; exact I].
  - destruct (negb (can_afford player (price_snapshot (fst entry))));
      cbn [tbind call preserves]; [exact I |].
    split; [apply buy_transaction_same | intro; exact I].
Qed.

(** The store after [view] is the store after its [ensure_rotation]. *)
Lemma view_db (interaction : Interaction) (w : World) :
  db (snd (run (view interaction) w)) = db (snd (run ensure_rotation w)).
Proof.
  unfold view. rewrite run_tbind.
  destruct (run ensure_rotation w) as [[[rotation |] | e] w']; try reflexivity.
  unfold _get_rotation_entries. cbn [tbind call run snd].
  assert (H := db_query_db (rotation_entries rotation) w').
  destruct (db_query (rotation_entries rotation) w') as [[entries | e] w''];
    cbn [snd] in *; [destruct entries |]; exact H.
Qed.

(** C10 (as stated) fails: with no rotation in the store, [buy] answers
    that there is no active rotation and creates none, where [view]
    creates one. *)
Lemma buy_does_not_ensure_rotation :
  let w := world_at db_fresh 1000 [] in
  run (buy somewhere 1) w = (Ok NoActiveRotation, advance 1 w) /\
  rotations (db (snd (run (buy somewhere 1) w))) = [] /\
  rotations (db (snd (run (view somewhere) w)))
    = [mkRotation 1 1000 (1000 + timedelta_minutes 60)] /\
  rotations (db (snd (run ensure_rotation w)))
    = [mkRotation 1 1000 (1000 + timedelta_minutes 60)].
Proof. vm_compute. repeat split. Qed.

(** C10 (amended). [view] calls [ensure_rotation] before it reads the
    entries, so it creates a fresh rotation when none is active: the store
    after [view] is the store after [ensure_rotation].  [buy] only looks
    the active rotation up: it never writes a rotation or a line item, and
    when none is active it answers that there is no active rotation and
    leaves the store as it was. *)
Theorem view_ensures_rotation_buy_only_looks_up
    (interaction : Interaction) (item_id : Z) (w : World) :
  faults w = [] ->
  enabled (settings (db w)) = true ->
  active_rotation_at (clock w (tick w)) (db w) = None ->
  active_rotation_at (clock w (S (tick w))) (db w) = None ->
  enabled_items (db w) <> [] ->
  (forall w1, db (snd (run (view interaction) w1)) = db (snd (run ensure_rotation w1))) /\
  (exists r reply,
     fst (run ensure_rotation w) = Ok (Some r) /\
     fst (run (view interaction) w) = Ok reply /\ reply <> MerchantAway /\
     rotations (db (snd (run (view interaction) w))) = rotations (db w) ++ [r]) /\
  (forall w1, same_rotations (db w1) (db (snd (run (buy interaction item_id) w1)))) /\
  run (buy interaction item_id) w = (Ok NoActiveRotation, advance 1 w) /\
  db (advance 1 w) = db w.
Proof.
  intros Hf He Hact Hact' Hne.
  split; [intro w1; apply view_db |].
  split; [| split; [| split]].
  - destruct (ensure_rotation_creates w Hf He Hact' Hne) as (selected & _ & _ & _ & Hrun).
    cbv zeta in Hrun.
    exists (new_rotation_row (settings (db w)) (clock w (S (S (tick w)))) (db w)).
    assert (Hview : exists reply,
              fst (run (view interaction) w) = Ok reply /\ reply <> MerchantAway).
    { unfold view. rewrite run_tbind, Hrun. unfold _get_rotation_entries.
      cbn [tbind call run]. rewrite db_query_calm.
      destruct (rotation_entries _ _); eexists; (split; [reflexivity | discriminate]). }
    destruct Hview as (reply & Hreply & Hnot).
    exists reply. split; [rewrite Hrun; reflexivity |]. split; [exact Hreply |].
    split; [exact Hnot |]. rewrite view_db, Hrun. reflexivity.
  - intro w1. apply preserves_run;
      [exact same_rotations_refl | exact same_rotations_trans
       | apply buy_preserves_rotations].
  - destruct w as [d clk tk rg dr fs]. cbn [db clock tick faults] in *. subst fs.
    rewrite buy_run, He, Hact. reflexivity.
  - reflexivity.
Qed.

Lemma view_ensures_rotation_buy_only_looks_up_witness :
  let w := world_at db_fresh 1000 [] in
  run (buy somewhere 1) w = (Ok NoActiveRotation, advance 1 w) /\
  exists r, rotations (db (snd (run (view somewhere) w))) = [r].
Proof.
  intro w.
  destruct (view_ensures_rotation_buy_only_looks_up somewhere 1 w)
    as (_ & (r & reply & _ & _ & _ & Hrot) & _ & Hbuy & _);
    [reflexivity | reflexivity | reflexivity | reflexivity | discriminate |].
  split; [exact Hbuy |]. exists r. exact Hrot.
Defined.

(** * Further properties *)

(** ** Every item can be drawn *)






(** X2. When [items_per_rotation] is at least the number of enabled items,
    the sampling loop returns them all, each once: the selection is a
    permutation of the pool (keys being unique). *)
Theorem selection_takes_whole_pool (config : MerchantSettings)
    (available : list MerchantItem) (w : World) :
  NoDup (map item_id available) ->
  Z.of_nat (length available) <= items_per_rotation config ->
  let k := Z.to_nat (Z.min (items_per_rotation config) (Z.of_nat (length available))) in
  exists selected,
    select_items k available [] w = (Ok selected, drawn k w) /\
    Permutation.Permutation selected available.
Proof.
  intros Hnd Hall k.
  assert (Hk : (k <= length available)%nat) by (subst k; lia).
  destruct (select_items_spec k available [] w Hk)
    as (selected & Hrun & Hlen & Hincl & Hnds & _).
  simpl in Hrun. exists selected. split; [exact Hrun |].
  apply Permutation.NoDup_Permutation_bis.
  - apply (NoDup_map_inv item_id). exact (Hnds Hnd).
  - subst k. lia.
  - exact Hincl.
Qed.

Lemma selection_takes_whole_pool_witness :
  exists selected,
    fst (select_items 3 [item_a; item_b; item_c] [] (world_at db_fresh 0 [])) = Ok selected /\
    Permutation.Permutation selected [item_a; item_b; item_c].
Proof.
  destruct (selection_takes_whole_pool (mkSettings true 5 60 30 None)
              [item_a; item_b; item_c] (world_at db_fresh 0 []))
    as (selected & Hrun & Hperm).
  - repeat constructor; simpl; intuition discriminate.
  - vm_compute. discriminate.
  - exists selected. split; [| exact Hperm].
    change 3%nat with (Z.to_nat (Z.min (items_per_rotation (mkSettings true 5 60 30 None))
                                       (Z.of_nat (length [item_a; item_b; item_c])))).
    rewrite Hrun. reflexivity.
Defined.

(** ** Store operations that may fail *)

Section AnySteps.
Variables (d : DB) (clk : nat -> datetime) (tk : nat) (rg : nat -> Q) (dr : nat).
Variable fs : list bool.

Lemma db_op_any {A} (f : DB -> Result A * DB) :
  db_op f (mkWorld d clk tk rg dr fs) =
  if next_fails fs then (Raised DatabaseError, mkWorld d clk tk rg dr (tl fs))
  else (fst (f d), mkWorld (snd (f d)) clk tk rg dr (tl fs)).
Proof.
  unfold db_op. destruct fs as [| [|] fs']; simpl; try reflexivity;
    destruct (f d); reflexivity.
Qed.

Lemma db_query_any {A} (q : DB -> A) :
  db_query q (mkWorld d clk tk rg dr fs) =
  if next_fails fs then (Raised DatabaseError, mkWorld d clk tk rg dr (tl fs))
  else (Ok (q d), mkWorld d clk tk rg dr (tl fs)).
Proof. unfold db_query. rewrite db_op_any. reflexivity. Qed.

Lemma db_update_any (u : DB -> DB) :
  db_update u (mkWorld d clk tk rg dr fs) =
  if next_fails fs then (Raised DatabaseError, mkWorld d clk tk rg dr (tl fs))
  else (Ok tt, mkWorld (u d) clk tk rg dr (tl fs)).
Proof. unfold db_update. rewrite db_op_any. reflexivity. Qed.
End AnySteps.

(** ** ensure_rotation, whatever fails *)

(** How [_create_new_rotation] can leave the store: untouched, with the
    rotation row alone, with the row and its line items, or with the audit
    timestamp as well; only the last returns the rotation. *)
Lemma create_new_rotation_outcome (config : MerchantSettings)
    (d : DB) (clk : nat -> datetime) (tk : nat) (rg : nat -> Q) (dr : nat)
    (fs : list bool) :
  let r := run (_create_new_rotation config) (mkWorld d clk tk rg dr fs) in
  (db (snd r) = d /\ forall x, fst r <> Ok (Some x)) \/
  exists selected,
    let row := new_rotation_row config (clk tk) d in
    let rows := new_line_items row selected d in
    enabled_items d <> [] /\
    incl selected (enabled_items d) /\
    length selected = Z.to_nat (rotation_size config d) /\
    (NoDup (map item_id (enabled_items d)) -> NoDup (map item_id selected)) /\
    ((fst r = Raised DatabaseError /\ db (snd r) = insert_rotation row d) \/
     (fst r = Raised DatabaseError /\
      db (snd r) = insert_line_items rows (insert_rotation row d)) \/
     (fst r = Ok (Some row) /\ db (snd r) = rotation_created config (clk tk) selected d)).
Proof.
  unfold _create_new_rotation. cbn [tbind call run]. rewrite db_query_any.
  destruct (next_fails fs); [left; split; [reflexivity | discriminate] |].
  destruct (enabled_items d) as [| i0 rest] eqn:Hitems;
    [left; split; [reflexivity | discriminate] |].
  cbn [tbind call run].
  set (k := Z.to_nat (Z.min (items_per_rotation config) (Z.of_nat (length (i0 :: rest))))).
  assert (Hk : (k <= length (i0 :: rest))%nat) by (subst k; lia).
  destruct (select_items_spec k (i0 :: rest) [] (mkWorld d clk tk rg dr (tl fs)) Hk)
    as (selected & Hrun & Hlen & Hincl & Hnd & _).
  simpl app in Hrun. rewrite Hrun. unfold drawn.
  cbn [db clock tick rng draws faults]. rewrite timezone_now_reads.
  unfold MerchantRotation_acreate. rewrite db_op_any.
  destruct (next_fails (tl fs)); [left; split; [reflexivity | discriminate] |].
  cbn [fst snd]. right. exists selected.
  split; [discriminate |]. split; [exact Hincl |].
  split; [unfold rotation_size; rewrite Hitems; exact Hlen |].
  split; [exact Hnd |].
  unfold MerchantRotationItem_abulk_create. rewrite db_update_any.
  destruct (next_fails (tl (tl fs))); [left; split; reflexivity |].
  unfold MerchantSettings_aupdate_last_rotation_at. rewrite db_update_any.
  destruct (next_fails (tl (tl (tl fs)))); [right; left; split; reflexivity |].
  right. right. split; reflexivity.
Qed.

Lemma ensure_rotation_outcome (w : World) :
  let r := run ensure_rotation w in
  let config := settings (db w) in
  (db (snd r) = db w /\ forall x, fst r = Ok (Some x) -> In x (rotations (db w))) \/
  exists now selected,
    let row := new_rotation_row config now (db w) in
    let rows := new_line_items row selected (db w) in
    enabled config = true /\
    enabled_items (db w) <> [] /\
    incl selected (enabled_items (db w)) /\
    length selected = Z.to_nat (rotation_size config (db w)) /\
    (NoDup (map item_id (enabled_items (db w))) -> NoDup (map item_id selected)) /\
    ((fst r = Raised DatabaseError /\ db (snd r) = insert_rotation row (db w)) \/
     (fst r = Raised DatabaseError /\
      db (snd r) = insert_line_items rows (insert_rotation row (db w))) \/
     (fst r = Ok (Some row) /\
      db (snd r) = rotation_created config now selected (db w))).
Proof.
  destruct w as [d clk tk rg dr fs]. cbn [db].
  unfold ensure_rotation, _get_active_rotation, MerchantSettings_load.
  cbn [tbind call run]. rewrite db_query_any.
  destruct (next_fails fs); [left; split; [reflexivity | discriminate] |].
  destruct (enabled (settings d)) eqn:He; cbn [negb];
    [| left; split; [reflexivity | discriminate]].
  cbn [tbind call run]. rewrite !timezone_now_reads. rewrite db_query_any.
  destruct (next_fails (tl fs)); [left; split; [reflexivity | discriminate] |].
  assert (Hcreate := create_new_rotation_outcome (settings d) d clk (S (S tk)) rg dr
                       (tl (tl fs))).
  cbv zeta in Hcreate.
  assert (Hgo : let r := run (_create_new_rotation (settings d))
                            (mkWorld d clk (S (S tk)) rg dr (tl (tl fs))) in
                (db (snd r) = d /\
                 forall x, fst r = Ok (Some x) -> In x (rotations d)) \/
                exists now selected,
                  enabled_items d <> [] /\
                  incl selected (enabled_items d) /\
                  length selected = Z.to_nat (rotation_size (settings d) d) /\
                  (NoDup (map item_id (enabled_items d)) ->
                   NoDup (map item_id selected)) /\
                  ((fst r = Raised DatabaseError /\
                    db (snd r) = insert_rotation (new_rotation_row (settings d) now d) d) \/
                   (fst r = Raised DatabaseError /\
                    db (snd r) =
                    insert_line_items
                      (new_line_items (new_rotation_row (settings d) now d) selected d)
                      (insert_rotation (new_rotation_row (settings d) now d) d)) \/
                   (fst r = Ok (Some (new_rotation_row (settings d) now d)) /\
                    db (snd r) = rotation_created (settings d) now selected d))).
  { cbv zeta. destruct Hcreate as [[Hdb Hno] | (selected & Hrest)].
    - left. split; [exact Hdb |]. intros x Hx. exfalso. exact (Hno x Hx).
    - right. exists (clk (S (S tk))), selected. exact Hrest. }
  cbv zeta in Hgo.
  destruct (active_rotation_at (clk (S tk)) d) as [r |] eqn:Hact.
  - destruct (clk tk <? ends_at r).
    + left. split; [reflexivity |]. intros x Hx. injection Hx as <-.
      exact (proj1 (active_rotation_at_spec _ _ _ Hact)).
    + destruct Hgo as [Hl | (now & selected & Hrest)]; [left; exact Hl |].
      right. exists now, selected. split; [reflexivity | exact Hrest].
  - destruct Hgo as [Hl | (now & selected & Hrest)]; [left; exact Hl |].
    right. exists now, selected. split; [reflexivity | exact Hrest].
Qed.

Lemma next_pk_above (keys : list Z) (k : Z) : In k keys -> k < next_pk keys.
Proof.
  unfold next_pk. induction keys as [| x keys IH]; cbn [fold_right In]; [intros [] |].
  intros [<- | Hin]; [lia | specialize (IH Hin); lia].
Qed.

Lemma next_pk_fresh (keys : list Z) : ~ In (next_pk keys) keys.
Proof. intro Hin. apply next_pk_above in Hin. lia. Qed.

Lemma line_items_In (pk : Z) (r : MerchantRotation) (selected : list MerchantItem)
    (e : MerchantRotationItem) :
  In e (line_items pk r selected) ->
  pk <= entry_id e /\ entry_rotation e = rotation_id r /\
  exists i, In i selected /\ entry_item e = item_id i /\ price_snapshot e = price i.
Proof.
  revert pk. induction selected as [| i sel IH]; intros pk; simpl; [intros [] |].
  intros [<- | Hin].
  - simpl. split; [lia |]. split; [reflexivity |]. exists i. auto.
  - destruct (IH _ Hin) as (Hpk & Hr & j & Hj & Hitem & Hprice).
    split; [lia |]. split; [exact Hr |]. exists j. auto.
Qed.

Lemma line_items_keys_NoDup (pk : Z) (r : MerchantRotation)
    (selected : list MerchantItem) :
  NoDup (map entry_id (line_items pk r selected)).
Proof.
  revert pk. induction selected as [| i sel IH]; intro pk; simpl; constructor.
  - intro Hin. apply in_map_iff in Hin. destruct Hin as (e & He & Hin).
    apply line_items_In in Hin. destruct Hin as [Hpk _]. simpl in He. lia.
  - apply IH.
Qed.

(** X3. Whatever store operation fails, [ensure_rotation] only appends: the
    catalog, the players, the inventory and the ledger are left as they
    were, at most one rotation row is added, at the end of its table, and
    line items are added only together with that row, to which they all
    belong. *)
Theorem ensure_rotation_only_appends (w : World) :
  let d := db w in
  let d' := db (snd (run ensure_rotation w)) in
  items d' = items d /\ players d' = players d /\
  instances d' = instances d /\ purchases d' = purchases d /\
  exists new_rows new_lines,
    rotations d' = rotations d ++ new_rows /\
    rotation_items d' = rotation_items d ++ new_lines /\
    (length new_rows <= 1)%nat /\
    forall e, In e new_lines ->
      exists r, new_rows = [r] /\ entry_rotation e = rotation_id r.
Proof.
  cbv zeta.
  destruct (ensure_rotation_outcome w)
    as [[Hdb _] | (now & selected & _ & _ & _ & _ & _ & [[_ Hdb] | [[_ Hdb] | [_ Hdb]]])];
    rewrite Hdb.
  - repeat split. exists [], []. rewrite !app_nil_r.
    repeat split; [simpl; lia | intros e []].
  - repeat split. exists [new_rotation_row (settings (db w)) now (db w)], [].
    simpl. rewrite app_nil_r. repeat split; [lia | intros e []].
  - repeat split.
    exists [new_rotation_row (settings (db w)) now (db w)],
      (new_line_items (new_rotation_row (settings (db w)) now (db w)) selected (db w)).
    simpl. repeat split; [lia |]. intros e He.
    eexists. split; [reflexivity |]. apply line_items_In in He. apply He.
  - repeat split.
    exists [new_rotation_row (settings (db w)) now (db w)],
      (new_line_items (new_rotation_row (settings (db w)) now (db w)) selected (db w)).
    simpl. repeat split; [lia |]. intros e He.
    eexists. split; [reflexivity |]. apply line_items_In in He. apply He.
Qed.

Lemma insert_rotation_keys (config : MerchantSettings) (now : datetime) (d : DB) :
  rotation_keys_unique d ->
  rotation_keys_unique (insert_rotation (new_rotation_row config now d) d).
Proof.
  intros [Hr He]. split; [| exact He]. simpl. rewrite map_app. simpl.
  apply NoDup_app_remove_l with (l := []). simpl.
  apply Permutation.Permutation_NoDup
    with (l := next_pk (map rotation_id (rotations d)) :: map rotation_id (rotations d)).
  - apply Permutation.Permutation_cons_append.
  - constructor; [apply next_pk_fresh | exact Hr].
Qed.

Lemma insert_line_items_keys (r : MerchantRotation) (selected : list MerchantItem)
    (d0 d : DB) :
  rotation_items d = rotation_items d0 ->
  rotation_keys_unique d ->
  rotation_keys_unique (insert_line_items (new_line_items r selected d0) d).
Proof.
  intros Hsame [Hr He]. split; [exact Hr |]. simpl. rewrite map_app.
  unfold new_line_items. rewrite Hsame in *.
  induction (rotation_items d0) as [| x l IH] using rev_ind.
  - simpl. apply line_items_keys_NoDup.
  - clear IH. apply NoDup_app; [exact He | apply line_items_keys_NoDup |].
    intros k Hk Hk'. apply in_map_iff in Hk'. destruct Hk' as (e & <- & Hin).
    apply line_items_In in Hin. destruct Hin as [Hpk _].
    apply next_pk_above in Hk. lia.
Qed.

(** X4. [ensure_rotation] keeps the primary keys of the rotation and line
    item tables unique, whatever store operation fails. *)
Theorem ensure_rotation_keeps_keys_unique (w : World) :
  rotation_keys_unique (db w) ->
  rotation_keys_unique (db (snd (run ensure_rotation w))).
Proof.
  intro Hk.
  destruct (ensure_rotation_outcome w)
    as [[Hdb _] | (now & selected & _ & _ & _ & _ & _ & [[_ Hdb] | [[_ Hdb] | [_ Hdb]]])];
    rewrite Hdb.
  - exact Hk.
  - apply insert_rotation_keys, Hk.
  - apply insert_line_items_keys; [reflexivity | apply insert_rotation_keys, Hk].
  - exact (insert_line_items_keys
             (new_rotation_row (settings (db w)) now (db w)) selected (db w)
             (insert_rotation (new_rotation_row (settings (db w)) now (db w)) (db w))
             eq_refl (insert_rotation_keys (settings (db w)) now (db w) Hk)).
Qed.

Lemma ensure_rotation_keeps_keys_unique_witness :
  rotation_keys_unique db_fresh /\
  rotation_keys_unique (db (snd (run ensure_rotation (world_at db_fresh 0 [])))).
Proof.
  assert (H : rotation_keys_unique db_fresh) by (split; constructor).
  split; [exact H | exact (ensure_rotation_keeps_keys_unique (world_at db_fresh 0 []) H)].
Defined.

Lemma enabled_items_incl (d : DB) : incl (enabled_items d) (items d).
Proof. intros i Hi. apply filter_In in Hi. apply Hi. Qed.

Lemma insert_rotation_references (r : MerchantRotation) (d : DB) :
  references_resolve d -> references_resolve (insert_rotation r d).
Proof.
  intros H e He. destruct (H e He) as [(r' & Hr' & Hid) Hitem].
  split; [| exact Hitem]. exists r'. split; [| exact Hid].
  simpl. apply in_or_app. left. exact Hr'.
Qed.

Lemma insert_line_items_references (r : MerchantRotation)
    (selected : list MerchantItem) (d0 d : DB) :
  In r (rotations d) -> incl selected (items d) ->
  references_resolve d ->
  references_resolve (insert_line_items (new_line_items r selected d0) d).
Proof.
  intros Hr Hsel H e He. simpl in He. apply in_app_or in He.
  destruct He as [He | He]; [exact (H e He) |].
  apply line_items_In in He. destruct He as (_ & Hrot & i & Hi & Hitem & _).
  split.
  - exists r. split; [exact Hr | symmetry; exact Hrot].
  - exists i. split; [apply Hsel, Hi | symmetry; exact Hitem].
Qed.

(** X5. [ensure_rotation] keeps the references of the line items intact,
    whatever store operation fails: when every line item of the store names
    a rotation and a catalog item that exist, so does every line item
    afterwards. *)
Theorem ensure_rotation_keeps_references (w : World) :
  references_resolve (db w) ->
  references_resolve (db (snd (run ensure_rotation w))).
Proof.
  intro Hk.
  destruct (ensure_rotation_outcome w)
    as [[Hdb _] | (now & selected & _ & _ & Hincl & _ & _ & [[_ Hdb] | [[_ Hdb] | [_ Hdb]]])];
    rewrite Hdb.
  - exact Hk.
  - apply insert_rotation_references, Hk.
  - apply insert_line_items_references.
    + simpl. apply in_or_app. right. left. reflexivity.
    + intros i Hi. apply enabled_items_incl, Hincl, Hi.
    + apply insert_rotation_references, Hk.
  - unfold rotation_created.
    assert (H : references_resolve
                  (insert_line_items
                     (new_line_items (new_rotation_row (settings (db w)) now (db w))
                        selected (db w))
                     (insert_rotation (new_rotation_row (settings (db w)) now (db w))
                        (db w)))).
    { apply insert_line_items_references.
      - simpl. apply in_or_app. right. left. reflexivity.
      - intros i Hi. apply enabled_items_incl, Hincl, Hi.
      - apply insert_rotation_references, Hk. }
    exact H.
Qed.

Lemma ensure_rotation_keeps_references_witness :
  references_resolve db_fresh /\
  references_resolve (db (snd (run ensure_rotation (world_at db_fresh 0 [])))).
Proof.
  assert (H : references_resolve db_fresh) by (intros e []).
  split; [exact H | exact (ensure_rotation_keeps_references (world_at db_fresh 0 []) H)].
Defined.

(** ** What a fresh rotation shows *)











(** ** Rotations of no duration *)

(** X7. With a rotation length of zero minutes or less, the rotation
    [ensure_rotation] creates is written to the store but has ended when it
    starts: at no time from its start on does a lookup of the active
    rotation find it, in any store. *)
Theorem instant_rotation_is_never_active (w : World) (r : MerchantRotation) :
  rotation_minutes (settings (db w)) <= 0 ->
  fst (run ensure_rotation w) = Ok (Some r) ->
  ~ In r (rotations (db w)) ->
  In r (rotations (db (snd (run ensure_rotation w)))) /\
  forall t d, starts_at r <= t -> active_rotation_at t d <> Some r.
Proof.
  intros Hmin Hret Hnew.
  destruct (ensure_rotation_outcome w)
    as [[_ Hold] | (now & selected & _ & _ & _ & _ & _ & Hcases)].
  { exfalso. apply Hnew, Hold, Hret. }
  destruct Hcases as [[Hr _] | [[Hr _] | [Hr Hdb]]];
    rewrite Hr in Hret; try discriminate.
  injection Hret as <-. split.
  - rewrite Hdb. simpl. apply in_or_app. right. left. reflexivity.
  - intros t d Ht Hact. apply active_rotation_at_spec in Hact.
    destruct Hact as (_ & Hlt & _). simpl in Ht, Hlt.
    unfold timedelta_minutes in Hlt. nia.
Qed.

Lemma instant_rotation_is_never_active_witness :
  let w := world_at db_instant 1000 [] in
  let r := mkRotation 1 1000 1000 in
  In r (rotations (db (snd (run ensure_rotation w)))) /\
  active_rotation_at 1000 (db (snd (run ensure_rotation w))) <> Some r.
Proof.
  intros w r.
  destruct (instant_rotation_is_never_active w r) as [H1 H2].
  - vm_compute. discriminate.
  - reflexivity.
  - intros [].
  - split; [exact H1 |]. apply H2. vm_compute. discriminate.
Defined.

(** ** The refresher *)

Lemma first_by_desc_some {A} (key : A -> Z) (rows : list A) :
  rows <> [] -> exists x, first_by_desc key rows = Some x.
Proof.
  destruct rows as [| x rows]; [intro H; exfalso; apply H; reflexivity |].
  intros _. simpl. destruct (first_by_desc key rows) as [y |].
  - destruct (key x <? key y); eauto.
  - eauto.
Qed.

Lemma active_rotation_at_some (now : datetime) (d : DB) (r0 : MerchantRotation) :
  In r0 (rotations d) -> now < ends_at r0 ->
  exists r, active_rotation_at now d = Some r.
Proof.
  intros Hin Hlt. unfold active_rotation_at. apply first_by_desc_some.
  intro Hnil.
  assert (H : In r0 (filter (fun r => now <? ends_at r) (rotations d))).
  { apply filter_In. split; [exact Hin |]. apply Z.ltb_lt. exact Hlt. }
  rewrite Hnil in H. destruct H.
Qed.

(** While a rotation that has not ended is in the store, [ensure_rotation]
    writes nothing, whatever fails, and reads the clock at most twice. *)
Lemma ensure_rotation_live (w : World) (r0 : MerchantRotation) :
  In r0 (rotations (db w)) ->
  clock w (tick w) <= clock w (S (tick w)) ->
  clock w (S (tick w)) < ends_at r0 ->
  let w' := snd (run ensure_rotation w) in
  db w' = db w /\ clock w' = clock w /\
  (tick w <= tick w')%nat /\ (tick w' <= tick w + 2)%nat.
Proof.
  destruct w as [d clk tk rg dr fs]. cbn [db clock tick]. intros Hin Hmono Hlive.
  unfold ensure_rotation, _get_active_rotation, MerchantSettings_load.
  cbn [tbind call run]. rewrite db_query_any.
  destruct (next_fails fs); [cbn; repeat split; lia |].
  destruct (enabled (settings d)); cbn [negb]; [| cbn; repeat split; lia].
  cbn [tbind call run]. rewrite !timezone_now_reads. rewrite db_query_any.
  destruct (next_fails (tl fs)); [cbn; repeat split; lia |].
  destruct (active_rotation_at_some _ _ _ Hin Hlive) as [r Hr]. rewrite Hr.
  apply active_rotation_at_spec in Hr. destruct Hr as (_ & Hlt & _).
  assert (Hnow : (clk tk <? ends_at r) = true) by (apply Z.ltb_lt; lia).
  rewrite Hnow. cbn. repeat split; lia.
Qed.

Lemma monotone_clock (clk : nat -> datetime) (j k : nat) :
  (forall i, clk i <= clk (S i)) -> (j <= k)%nat -> clk j <= clk k.
Proof.
  intros Hmono Hle. induction Hle as [| k Hle IH]; [lia |].
  specialize (Hmono k). lia.
Qed.

(** X8. While a rotation of the store has not ended, the refresher is
    idle: any number of its iterations leaves the store as it was, whatever
    store operations fail.  Time does not run backwards, and the rotation
    outlasts the clock readings of the iterations, two each at most. *)
Theorem refresher_idle_while_rotation_lives (n : nat) (w : World)
    (r0 : MerchantRotation) :
  In r0 (rotations (db w)) ->
  (forall j, clock w j <= clock w (S j)) ->
  clock w (tick w + 2 * n) < ends_at r0 ->
  db (snd (refresher_ticks n w)) = db w.
Proof.
  revert w. induction n as [| n IH]; intros w Hin Hmono Hlive; [reflexivity |].
  cbn [refresher_ticks]. unfold bind, _rotation_refresher. rewrite run_tbind.
  assert (Hstep := ensure_rotation_live w r0 Hin (Hmono (tick w))).
  cbv zeta in Hstep.
  assert (Hlt : clock w (S (tick w)) < ends_at r0).
  { assert (H := monotone_clock (clock w) (S (tick w)) (tick w + 2 * S n) Hmono).
    specialize (H ltac:(lia)). lia. }
  specialize (Hstep Hlt).
  destruct (run ensure_rotation w) as [[x | e] w1]; cbn [fst snd run] in *;
    [| apply Hstep].
  destruct Hstep as (Hdb & Hclk & Hlo & Hhi). rewrite <- Hdb. apply IH.
  - rewrite Hdb. exact Hin.
  - rewrite Hclk. exact Hmono.
  - rewrite Hclk.
    assert (H := monotone_clock (clock w) (tick w1 + 2 * n) (tick w + 2 * S n) Hmono).
    specialize (H ltac:(lia)). lia.
Qed.

Lemma refresher_idle_while_rotation_lives_witness :
  db (snd (refresher_ticks 3 (world_at db_running 1000 [false; true]))) = db_running.
Proof.
  apply (refresher_idle_while_rotation_lives 3 (world_at db_running 1000 [false; true])
           rotation_1).
  - left. reflexivity.
  - intro j. simpl. lia.
  - reflexivity.
Defined.

(** One call of [ensure_rotation] keeps the store sound and grows the
    rotation table by one row at most. *)
Lemma ensure_rotation_sound (w : World) :
  rotation_keys_unique (db w) -> references_resolve (db w) ->
  let d' := db (snd (run ensure_rotation w)) in
  rotation_keys_unique d' /\ references_resolve d' /\
  items d' = items (db w) /\ players d' = players (db w) /\
  instances d' = instances (db w) /\ purchases d' = purchases (db w) /\
  exists new_rows, rotations d' = rotations (db w) ++ new_rows /\
                   (length new_rows <= 1)%nat.
Proof.
  intros Hk Href. cbv zeta.
  set (row now := new_rotation_row (settings (db w)) now (db w)).
  assert (Hk1 : forall now, rotation_keys_unique (insert_rotation (row now) (db w)))
    by (intro now; apply insert_rotation_keys, Hk).
  assert (Hr1 : forall now, references_resolve (insert_rotation (row now) (db w)))
    by (intro now; apply insert_rotation_references, Href).
  assert (Hk2 : forall now selected,
             rotation_keys_unique
               (insert_line_items (new_line_items (row now) selected (db w))
                  (insert_rotation (row now) (db w))))
    by (intros now selected; apply insert_line_items_keys; [reflexivity | apply Hk1]).
  assert (Hr2 : forall now selected, incl selected (enabled_items (db w)) ->
             references_resolve
               (insert_line_items (new_line_items (row now) selected (db w))
                  (insert_rotation (row now) (db w)))).
  { intros now selected Hincl. apply insert_line_items_references.
    - simpl. apply in_or_app. right. left. reflexivity.
    - intros i Hi. apply enabled_items_incl, Hincl, Hi.
    - apply Hr1. }
  destruct (ensure_rotation_outcome w)
    as [[Hdb _] | (now & selected & _ & _ & Hincl & _ & _ & [[_ Hdb] | [[_ Hdb] | [_ Hdb]]])];
    rewrite Hdb.
  - split; [exact Hk |]. split; [exact Href |]. do 4 (split; [reflexivity |]).
    exists []. rewrite app_nil_r. split; [reflexivity | simpl; lia].
  - split; [apply Hk1 |]. split; [apply Hr1 |]. do 4 (split; [reflexivity |]).
    exists [row now]. split; [reflexivity | simpl; lia].
  - split; [apply Hk2 |]. split; [apply Hr2, Hincl |]. do 4 (split; [reflexivity |]).
    exists [row now]. split; [reflexivity | simpl; lia].
  - split; [exact (Hk2 now selected) |]. split; [exact (Hr2 now selected Hincl) |].
    do 4 (split; [reflexivity |]). exists [row now]. split; [reflexivity | simpl; lia].
Qed.

(** X9. However often the refresher runs and whatever store operations
    fail, the store stays sound: rotation and line item keys stay unique,
    line items keep naming rotations and catalog items that exist, the
    catalog, the players, the inventory and the ledger are untouched, and
    [n] iterations add [n] rotation rows at most, after the rows there. *)
Theorem refresher_keeps_store_sound (n : nat) (w : World) :
  rotation_keys_unique (db w) -> references_resolve (db w) ->
  let d' := db (snd (refresher_ticks n w)) in
  rotation_keys_unique d' /\ references_resolve d' /\
  items d' = items (db w) /\ players d' = players (db w) /\
  instances d' = instances (db w) /\ purchases d' = purchases (db w) /\
  exists new_rows, rotations d' = rotations (db w) ++ new_rows /\
                   (length new_rows <= n)%nat.
Proof.
  revert w. induction n as [| n IH]; intros w Hk Href; cbv zeta.
  - simpl. split; [exact Hk |]. split; [exact Href |]. do 4 (split; [reflexivity |]).
    exists []. rewrite app_nil_r. split; [reflexivity | simpl; lia].
  - cbn [refresher_ticks]. unfold bind, _rotation_refresher. rewrite run_tbind.
    assert (Hstep := ensure_rotation_sound w Hk Href). cbv zeta in Hstep.
    destruct (run ensure_rotation w) as [[x | e] w1]; cbn [fst snd run] in *;
      unfold ret; cbn [fst snd].
    + destruct Hstep as (Hk1 & Hr1 & Hi1 & Hp1 & Hn1 & Hu1 & rows1 & Hrows1 & Hlen1).
      destruct (IH w1 Hk1 Hr1) as (Hk2 & Hr2 & Hi2 & Hp2 & Hn2 & Hu2 & rows2 & Hrows2 & Hlen2).
      split; [exact Hk2 |]. split; [exact Hr2 |].
      split; [congruence |]. split; [congruence |].
      split; [congruence |]. split; [congruence |].
      exists (rows1 ++ rows2). rewrite Hrows2, Hrows1, app_assoc.
      split; [reflexivity |]. rewrite length_app. lia.
    + destruct Hstep as (Hk1 & Hr1 & Hi1 & Hp1 & Hn1 & Hu1 & rows1 & Hrows1 & Hlen1).
      split; [exact Hk1 |]. split; [exact Hr1 |].
      split; [exact Hi1 |]. split; [exact Hp1 |].
      split; [exact Hn1 |]. split; [exact Hu1 |].
      exists rows1. split; [exact Hrows1 | lia].
Qed.

Lemma refresher_keeps_store_sound_witness :
  let d' := db (snd (refresher_ticks 2 (world_at db_instant 1000 []))) in
  rotation_keys_unique d' /\ references_resolve d' /\ players d' = [alice].
Proof.
  intro d'.
  destruct (refresher_keeps_store_sound 2 (world_at db_instant 1000 []))
    as (H1 & H2 & _ & H3 & _).
  - split; constructor.
  - intros e [].
  - split; [exact H1 |]. split; [exact H2 | exact H3].
Defined.

(** ** buy, whatever fails *)

(** How [buy] can end, whatever store operations fail.  Either nothing is
    sold and the store is as before, up to the row of a player seen for the
    first time; or every precondition held, the item is granted and the
    purchase committed. *)
Lemma buy_outcome (interaction : Interaction) (item_id : Z) (w : World) :
  let r := run (buy interaction item_id) w in
  let d := db w in
  let player := fst (get_or_create (user_id interaction) d) in
  let d1 := snd (get_or_create (user_id interaction) d) in
  ((db (snd r) = d \/ db (snd r) = d1) /\ forall i, fst r <> Ok (Bought i)) \/
  exists rotation entry locked now,
    enabled (settings d) = true /\
    active_rotation_at (clock w (tick w)) d = Some rotation /\
    find (fun e => entry_id (fst e) =? item_id) (rotation_entries rotation d)
      = Some entry /\
    cooldown_end_at (clock w (S (tick w))) (purchase_cooldown_seconds (settings d))
                    (player_pk player) d1 = None /\
    price_snapshot (fst entry) <= money player /\
    player_by_pk (player_pk player) d1 = Some locked /\
    price_snapshot (fst entry) <= money locked /\
    (now = clock w (S (tick w)) \/ now = clock w (S (S (tick w)))) /\
    fst r = Ok (Bought (granted_instance interaction entry locked d1)) /\
    db (snd r) = purchase_committed interaction entry locked now d1.
Proof.
  destruct w as [d clk tk rg dr fs]. cbv zeta. cbn [db clock tick].
  unfold buy, _get_active_rotation, _get_rotation_entries, _get_cooldown_end,
    MerchantSettings_load, cooldown_end_at.
  cbn [tbind call run]. rewrite db_query_any.
  destruct (next_fails fs); [left; split; [left; reflexivity | discriminate] |].
  destruct (enabled (settings d)) eqn:He; cbn [negb];
    [| left; split; [left; reflexivity | discriminate]].
  cbn [tbind call run]. rewrite timezone_now_reads, db_query_any.
  destruct (next_fails (tl fs)); [left; split; [left; reflexivity | discriminate] |].
  destruct (active_rotation_at (clk tk) d) as [rotation |] eqn:Hact;
    [| left; split; [left; reflexivity | discriminate]].
  cbn [tbind call run]. rewrite db_query_any.
  destruct (next_fails (tl (tl fs))); [left; split; [left; reflexivity | discriminate] |].
  destruct (find (fun e => entry_id (fst e) =? item_id) (rotation_entries rotation d))
    as [entry |] eqn:Hfind; [| left; split; [left; reflexivity | discriminate]].
  cbn [tbind call run]. unfold Player_aget_or_create. rewrite db_op_any.
  destruct (next_fails (tl (tl (tl fs))));
    [left; split; [left; reflexivity | discriminate] |].
  destruct (get_or_create (user_id interaction) d) as [player d1]. cbn [fst snd].
  cbn [tbind call run]. rewrite db_query_any.
  destruct (next_fails (tl (tl (tl (tl fs)))));
    [left; split; [right; reflexivity | discriminate] |].
  set (fs' := tl (tl (tl (tl (tl fs))))).
  assert (Hfunds : forall tk' : nat,
    (tk' = S tk \/ tk' = S (S tk)) ->
    let r := run (if negb (can_afford player (price_snapshot (fst entry)))
                  then Return NotEnoughMoney
                  else call (buy_transaction interaction entry player))
                 (mkWorld d1 clk tk' rg dr fs') in
    ((db (snd r) = d \/ db (snd r) = d1) /\ forall i, fst r <> Ok (Bought i)) \/
    exists locked now,
      price_snapshot (fst entry) <= money player /\
      player_by_pk (player_pk player) d1 = Some locked /\
      price_snapshot (fst entry) <= money locked /\
      (now = clk (S tk) \/ now = clk (S (S tk))) /\
      fst r = Ok (Bought (granted_instance interaction entry locked d1)) /\
      db (snd r) = purchase_committed interaction entry locked now d1).
  { intros tk' Htk. cbv zeta. unfold can_afford.
    destruct (Z.leb_spec (price_snapshot (fst entry)) (money player)) as [Hle | Hlt];
      cbn [negb]; [| left; split; [right; reflexivity | discriminate]].
    cbn [call run].
    assert (Hc := buy_transaction_cases interaction entry player
                    (mkWorld d1 clk tk' rg dr fs')).
    cbv zeta in Hc. cbn [db clock tick] in Hc.
    destruct (buy_transaction interaction entry player (mkWorld d1 clk tk' rg dr fs'))
      as [[reply | e] w'] eqn:Hrun; cbn [fst snd] in Hc.
    - cbn [run]. unfold ret. cbn [fst snd].
      destruct Hc as [(locked & Hl & Hm & Hr & Hdb) |
                      [(locked & Hl & Hm & Hr & Hdb) | [Hr Hdb]]].
      + right. exists locked, (clk tk'). split; [exact Hle |]. split; [exact Hl |].
        split; [exact Hm |]. split; [destruct Htk as [-> | ->]; auto |].
        split; [exact Hr | exact Hdb].
      + left. split; [right; exact Hdb |]. rewrite Hr. discriminate.
      + left. split; [right; exact Hdb |]. rewrite Hr. discriminate.
    - cbn [fst snd].
      destruct Hc as [(locked & _ & _ & Hr & _) | [(locked & _ & _ & Hr & _) | [Hr _]]];
        discriminate. }
  cbv zeta in Hfunds.
  destruct (last_purchase_of (player_pk player) d1) as [p |] eqn:Hlast.
  - cbn [tbind call run]. rewrite timezone_now_reads. cbn [run tbind call]. unfold ret.
    cbn [fst snd].
    destruct (clk (S tk) <? created_at p
                            + timedelta_seconds (purchase_cooldown_seconds (settings d)));
      [left; split; [right; reflexivity | discriminate] |].
    destruct (Hfunds (S (S tk)) (or_intror eq_refl))
      as [Hl | (locked & now & H1 & H2 & H3 & H4 & H5 & H6)]; [left; exact Hl |].
    right. exists rotation, entry, locked, now. repeat split; assumption.
  - cbn [tbind call run].
    destruct (Hfunds (S tk) (or_introl eq_refl))
      as [Hl | (locked & now & H1 & H2 & H3 & H4 & H5 & H6)]; [left; exact Hl |].
    right. exists rotation, entry, locked, now. repeat split; assumption.
Qed.

Lemma get_or_create_cases (uid : Z) (d : DB) :
  let player := fst (get_or_create uid d) in
  let d1 := snd (get_or_create uid d) in
  discord_id player = uid /\ In player (players d1) /\
  (d1 = d \/
   d1 = insert_player player d /\ money player = 0 /\
   player_pk player = next_pk (map player_pk (players d))).
Proof.
  unfold get_or_create.
  destruct (find (fun p => discord_id p =? uid) (players d)) as [p |] eqn:Hfind;
    cbn [fst snd].
  - apply find_some in Hfind. destruct Hfind as [Hin Heq]. apply Z.eqb_eq in Heq.
    split; [exact Heq |]. split; [exact Hin |]. left. reflexivity.
  - split; [reflexivity |].
    split; [simpl; apply in_or_app; right; left; reflexivity |].
    right. repeat split.
Qed.

(** X10. Whatever store operations fail, [buy] sells only on a valid
    request: when it answers with a granted item, the merchant is enabled,
    the id names a line item of a rotation of the store that had not ended
    when it was looked up, the buyer was not cooling down, the balance
    reached the snapshot price, and the item granted is the ball and special
    of that line item, tradeable and owned by the buyer. *)
Theorem buy_sells_only_on_valid_request (interaction : Interaction) (item_id : Z)
    (w : World) (instance : BallInstance) :
  fst (run (buy interaction item_id) w) = Ok (Bought instance) ->
  let d := db w in
  let player := fst (get_or_create (user_id interaction) d) in
  let d1 := snd (get_or_create (user_id interaction) d) in
  enabled (settings d) = true /\
  exists rotation entry,
    In rotation (rotations d) /\ clock w (tick w) < ends_at rotation /\
    In entry (rotation_entries rotation d) /\
    entry_id (fst entry) = item_id /\
    entry_rotation (fst entry) = rotation_id rotation /\
    cooldown_end_at (clock w (S (tick w))) (purchase_cooldown_seconds (settings d))
                    (player_pk player) d1 = None /\
    price_snapshot (fst entry) <= money player /\
    instance_ball instance = ball (snd entry) /\
    instance_special instance = special (snd entry) /\
    instance_player instance = player_pk player /\
    tradeable instance = true.
Proof.
  intro Hbought. cbv zeta.
  destruct (buy_outcome interaction item_id w)
    as [[_ Hno] | (rotation & entry & locked & now & He & Hact & Hfind & Hcool & Hfunds
                   & Hlocked & _ & _ & Hr & _)].
  { exfalso. exact (Hno instance Hbought). }
  rewrite Hr in Hbought. injection Hbought as <-.
  split; [exact He |]. exists rotation, entry.
  apply active_rotation_at_spec in Hact. destruct Hact as (Hin & Hlt & _).
  apply find_some in Hfind. destruct Hfind as [Hentry Hid]. apply Z.eqb_eq in Hid.
  split; [exact Hin |]. split; [exact Hlt |]. split; [exact Hentry |].
  split; [exact Hid |].
  split; [exact (proj2 (rotation_entries_In _ _ _ Hentry)) |].
  split; [exact Hcool |]. split; [exact Hfunds |].
  split; [reflexivity |]. split; [reflexivity |].
  split; [exact (find_player_pk _ _ _ Hlocked) | reflexivity].
Qed.

Lemma buy_sells_only_on_valid_request_witness :
  exists rotation entry,
    In rotation (rotations db_running) /\ 1000 < ends_at rotation /\
    In entry (rotation_entries rotation db_running) /\ entry_id (fst entry) = 1.
Proof.
  destruct (buy_sells_only_on_valid_request somewhere 1 (world_at db_running 1000 [])
              (mkBallInstance 1 101 1 None (Some 55) true))
    as (_ & rotation & entry & H1 & H2 & H3 & H4 & _).
  - reflexivity.
  - exists rotation, entry. split; [exact H1 |]. split; [exact H2 |].
    split; [exact H3 | exact H4].
Defined.

(** X11. [buy] is all or nothing, whatever store operations fail and also
    when it raises: either it answers with the granted item, and exactly one
    grant and one ledger entry have been added, for the same player, the
    ledger entry naming the line item asked for; or it grants nothing,
    records nothing and changes no balance, the only possible change being
    the row, with an empty purse, of a buyer seen for the first time. *)
Theorem buy_is_all_or_nothing (interaction : Interaction) (item_id : Z) (w : World) :
  let r := run (buy interaction item_id) w in
  let d := db w in
  let d' := db (snd r) in
  ((forall i, fst r <> Ok (Bought i)) /\
   instances d' = instances d /\ purchases d' = purchases d /\
   (players d' = players d \/
    exists p, players d' = players d ++ [p] /\
              discord_id p = user_id interaction /\ money p = 0))
  \/
  (exists instance purchase,
     fst r = Ok (Bought instance) /\
     instances d' = instances d ++ [instance] /\
     purchases d' = purchases d ++ [purchase] /\
     instance_player instance = purchase_player purchase /\
     purchase_rotation_item purchase = item_id).
Proof.
  cbv zeta.
  destruct (get_or_create_cases (user_id interaction) (db w)) as (Huid & _ & Hd1).
  destruct (buy_outcome interaction item_id w)
    as [[Hdb Hno] | (rotation & entry & locked & now & _ & _ & Hfind & _ & _
                     & _ & _ & _ & Hr & Hdb)].
  - left. split; [exact Hno |].
    destruct Hdb as [-> | ->]; [repeat split; left; reflexivity |].
    destruct Hd1 as [-> | (-> & Hmoney & _)]; [repeat split; left; reflexivity |].
    repeat split. right. eexists. split; [reflexivity |]. split; assumption.
  - right. rewrite Hdb, Hr.
    exists (granted_instance interaction entry locked
              (snd (get_or_create (user_id interaction) (db w)))),
           (ledger_entry entry locked now
              (insert_instance
                 (granted_instance interaction entry locked
                    (snd (get_or_create (user_id interaction) (db w))))
                 (update_player (debited locked entry)
                    (snd (get_or_create (user_id interaction) (db w)))))).
    apply find_some in Hfind. destruct Hfind as [_ Hid]. apply Z.eqb_eq in Hid.
    split; [reflexivity |].
    destruct Hd1 as [-> | (-> & _)]; repeat split; exact Hid.
Qed.

(** X12. [buy] never leaves a player in debt, whatever store operations
    fail: if no balance of the store is negative before the call, none is
    after it. *)
Theorem buy_keeps_players_solvent (interaction : Interaction) (item_id : Z) (w : World) :
  solvent (db w) -> solvent (db (snd (run (buy interaction item_id) w))).
Proof.
  intro Hs.
  destruct (get_or_create_cases (user_id interaction) (db w)) as (_ & _ & Hd1).
  assert (Hs1 : solvent (snd (get_or_create (user_id interaction) (db w)))).
  { destruct Hd1 as [-> | (-> & Hmoney & _)]; [exact Hs |].
    intros p Hp. simpl in Hp. apply in_app_or in Hp.
    destruct Hp as [Hp | [<- | []]]; [exact (Hs p Hp) | lia]. }
  destruct (buy_outcome interaction item_id w)
    as [[[-> | ->] _] | (rotation & entry & locked & now & _ & _ & _ & _ & _
                         & _ & Hle & _ & _ & ->)]; [exact Hs | exact Hs1 |].
  intros p Hp. simpl in Hp. apply in_map_iff in Hp. destruct Hp as (q & Hq & Hin).
  destruct (player_pk q =? player_pk locked); subst p; [simpl; lia | exact (Hs1 q Hin)].
Qed.

Lemma buy_keeps_players_solvent_witness :
  solvent (db (snd (run (buy somewhere 1) (world_at db_running 1000 [])))).
Proof.
  apply buy_keeps_players_solvent.
  intros p [<- | []]. simpl. lia.
Defined.

Lemma NoDup_snoc_fresh (keys : list Z) :
  NoDup keys -> NoDup (keys ++ [next_pk keys]).
Proof.
  intro H. apply Permutation.Permutation_NoDup with (l := next_pk keys :: keys).
  - apply Permutation.Permutation_cons_append.
  - constructor; [apply next_pk_fresh | exact H].
Qed.

Lemma update_player_keys (p : Player) (l : list Player) :
  map player_pk (map (fun q => if player_pk q =? player_pk p then p else q) l)
  = map player_pk l.
Proof.
  induction l as [| q l IH]; simpl; [reflexivity |]. rewrite IH. f_equal.
  destruct (Z.eqb_spec (player_pk q) (player_pk p)) as [Heq | _];
    [symmetry; exact Heq | reflexivity].
Qed.

(** X13. [buy] keeps the primary keys of the player, inventory and ledger
    tables unique, whatever store operations fail. *)
Theorem buy_keeps_keys_unique (interaction : Interaction) (item_id : Z) (w : World) :
  purchase_keys_unique (db w) ->
  purchase_keys_unique (db (snd (run (buy interaction item_id) w))).
Proof.
  intro Hk.
  destruct (get_or_create_cases (user_id interaction) (db w)) as (_ & _ & Hd1).
  assert (Hk1 : purchase_keys_unique (snd (get_or_create (user_id interaction) (db w)))).
  { destruct Hd1 as [-> | (-> & _ & Hpk)]; [exact Hk |].
    destruct Hk as (Hp & Hi & Hu). split; [| split; assumption].
    simpl. rewrite map_app. simpl. rewrite Hpk. apply NoDup_snoc_fresh, Hp. }
  destruct (buy_outcome interaction item_id w)
    as [[[-> | ->] _] | (rotation & entry & locked & now & _ & _ & _ & _ & _
                         & _ & _ & _ & _ & ->)]; [exact Hk | exact Hk1 |].
  destruct Hk1 as (Hp & Hi & Hu). unfold purchase_committed. split; [| split].
  - cbn [players insert_purchase insert_instance update_player].
    rewrite update_player_keys. exact Hp.
  - cbn [instances insert_purchase insert_instance update_player].
    rewrite map_app. apply NoDup_snoc_fresh, Hi.
  - cbn [purchases insert_purchase insert_instance update_player].
    rewrite map_app. apply NoDup_snoc_fresh, Hu.
Qed.

Lemma buy_keeps_keys_unique_witness :
  purchase_keys_unique (db (snd (run (buy somewhere 1) (world_at db_running 1000 [])))).
Proof.
  apply buy_keeps_keys_unique.
  split; [| split]; repeat constructor; simpl; intuition discriminate.
Defined.

(** X14. [buy] changes the row of no other player, whatever store
    operations fail: player keys being unique, every player of the store who
    is not the caller is in the store afterwards exactly as before. *)
Theorem buy_changes_only_the_buyer (interaction : Interaction) (item_id : Z)
    (w : World) (p : Player) :
  NoDup (map player_pk (players (db w))) ->
  In p (players (db w)) -> discord_id p <> user_id interaction ->
  In p (players (db (snd (run (buy interaction item_id) w)))).
Proof.
  intros Hnd Hin Hother.
  destruct (get_or_create_cases (user_id interaction) (db w)) as (Huid & Hplayer & Hd1).
  set (player := fst (get_or_create (user_id interaction) (db w))) in *.
  set (d1 := snd (get_or_create (user_id interaction) (db w))) in *.
  assert (Hin1 : In p (players d1)).
  { destruct Hd1 as [-> | (-> & _)]; [exact Hin |].
    simpl. apply in_or_app. left. exact Hin. }
  assert (Hnd1 : NoDup (map player_pk (players d1))).
  { destruct Hd1 as [-> | (-> & _ & Hpk)]; [exact Hnd |].
    simpl. rewrite map_app. simpl. rewrite Hpk. apply NoDup_snoc_fresh, Hnd. }
  destruct (buy_outcome interaction item_id w)
    as [[[-> | ->] _] | (rotation & entry & locked & now & _ & _ & _ & _ & _
                         & Hlocked & _ & _ & _ & ->)]; [exact Hin | exact Hin1 |].
  fold player d1 in Hlocked.
  cbn [players purchase_committed insert_purchase insert_instance update_player].
  apply in_map_iff. exists p. split; [| exact Hin1].
  destruct (Z.eqb_spec (player_pk p) (player_pk (debited locked entry))) as [Heq | _];
    [| reflexivity].
  exfalso. apply Hother. rewrite <- Huid. f_equal.
  apply (NoDup_map_injective player_pk (players d1) p player Hnd1 Hin1 Hplayer).
  rewrite Heq. simpl. exact (find_player_pk _ _ _ Hlocked).
Qed.

Lemma buy_changes_only_the_buyer_witness :
  In bob (players (db (snd (run (buy somewhere 1) (world_at db_two 1000 []))))).
Proof.
  apply buy_changes_only_the_buyer.
  - repeat constructor; simpl; intuition discriminate.
  - right. left. reflexivity.
  - discriminate.
Defined.

(** ** The cooldown a purchase starts *)

Lemma find_app_none {A} (f : A -> bool) (l l' : list A) :
  find f l = None -> find f (l ++ l') = find f l'.
Proof.
  induction l as [| x l IH]; simpl; [reflexivity |].
  destruct (f x); [discriminate | exact IH].
Qed.

Lemma get_or_create_finds (uid : Z) (d : DB) :
  find (fun p => discord_id p =? uid) (players (snd (get_or_create uid d)))
  = Some (fst (get_or_create uid d)).
Proof.
  unfold get_or_create.
  destruct (find (fun p => discord_id p =? uid) (players d)) as [p |] eqn:Hfind;
    cbn [fst snd]; [exact Hfind |].
  cbn [players insert_player]. rewrite (find_app_none _ _ _ Hfind). simpl.
  rewrite Z.eqb_refl. reflexivity.
Qed.

Lemma get_or_create_settings (uid : Z) (d : DB) :
  settings (snd (get_or_create uid d)) = settings d.
Proof. unfold get_or_create. destruct (find _ (players d)); reflexivity. Qed.

Lemma get_or_create_found (uid : Z) (d : DB) (p : Player) :
  find (fun q => discord_id q =? uid) (players d) = Some p ->
  get_or_create uid d = (p, d).
Proof. unfold get_or_create. intros ->. reflexivity. Qed.

(** The latest ledger entry of a player after a purchase stamped no
    earlier than the entries already there carries the stamp of the
    purchase. *)
Lemma last_purchase_after (pk : Z) (purchase : MerchantPurchase)
    (ledger : list MerchantPurchase) (d : DB) :
  purchases d = ledger ++ [purchase] ->
  purchase_player purchase = pk ->
  (forall q, In q ledger -> created_at q <= created_at purchase) ->
  exists p, last_purchase_of pk d = Some p /\ created_at p = created_at purchase.
Proof.
  intros Hpurchases Hpk Hlate. unfold last_purchase_of. rewrite Hpurchases.
  assert (Hin : In purchase (filter (fun p => purchase_player p =? pk)
                               (ledger ++ [purchase]))).
  { apply filter_In. split; [apply in_or_app; right; left; reflexivity |].
    apply Z.eqb_eq, Hpk. }
  destruct (first_by_desc_some created_at
              (filter (fun p => purchase_player p =? pk) (ledger ++ [purchase])))
    as [p Hp].
  { intro Hnil. rewrite Hnil in Hin. destruct Hin. }
  exists p. split; [exact Hp |].
  apply first_by_desc_In in Hp. destruct Hp as [Hp Hmax].
  specialize (Hmax purchase Hin).
  apply filter_In in Hp. destruct Hp as [Hp _]. apply in_app_or in Hp.
  destruct Hp as [Hp | [<- | []]]; [specialize (Hlate p Hp); lia | reflexivity].
Qed.

(** X15. A purchase starts the cooldown of the buyer.  After [buy] has
    answered with a granted item, the ledger has one more entry, stamped
    with the time of the purchase; a further [buy] of the same user for a
    line item of the active rotation, made on the resulting store before
    that stamp plus [purchase_cooldown_seconds] and with no store fault, is
    answered as on cooldown until exactly that time.  Player keys are
    unique and no ledger entry is stamped later than the purchase. *)
Theorem purchase_starts_cooldown (interaction : Interaction) (item_id : Z)
    (w : World) (instance : BallInstance) :
  NoDup (map player_pk (players (db w))) ->
  fst (run (buy interaction item_id) w) = Ok (Bought instance) ->
  exists purchase,
    purchases (db (snd (run (buy interaction item_id) w)))
      = purchases (db w) ++ [purchase] /\
    purchase_player purchase = instance_player instance /\
    (created_at purchase = clock w (S (tick w)) \/
     created_at purchase = clock w (S (S (tick w)))) /\
    let ready_at := created_at purchase
                    + timedelta_seconds (purchase_cooldown_seconds (settings (db w))) in
    forall (w2 : World) (item_id' : Z) (rotation2 : MerchantRotation) (entry2 : Entry),
      db w2 = db (snd (run (buy interaction item_id) w)) -> faults w2 = [] ->
      (forall q, In q (purchases (db w)) -> created_at q <= created_at purchase) ->
      active_rotation_at (clock w2 (tick w2)) (db w2) = Some rotation2 ->
      find (fun e => entry_id (fst e) =? item_id') (rotation_entries rotation2 (db w2))
        = Some entry2 ->
      clock w2 (S (tick w2)) < ready_at ->
      fst (run (buy interaction item_id') w2) = Ok (OnCooldown ready_at).
Proof.
  intros Hnd Hbought.
  destruct (get_or_create_cases (user_id interaction) (db w)) as (Huid & Hplayer & Hd1).
  assert (Hfinds := get_or_create_finds (user_id interaction) (db w)).
  assert (Hset := get_or_create_settings (user_id interaction) (db w)).
  assert (Hledger := get_or_create_purchases (user_id interaction) (db w)).
  set (player := fst (get_or_create (user_id interaction) (db w))) in *.
  set (d1 := snd (get_or_create (user_id interaction) (db w))) in *.
  assert (Hnd1 : NoDup (map player_pk (players d1))).
  { destruct Hd1 as [-> | (-> & _ & Hpk)]; [exact Hnd |].
    simpl. rewrite map_app. simpl. rewrite Hpk. apply NoDup_snoc_fresh, Hnd. }
  destruct (buy_outcome interaction item_id w)
    as [[_ Hno] | (rotation & entry & locked & now & He & _ & _ & _ & _
                   & Hlocked & _ & Hnow & Hr & Hdb)].
  { exfalso. exact (Hno instance Hbought). }
  fold player d1 in Hlocked, Hr, Hdb.
  rewrite Hr in Hbought. injection Hbought as <-.
  assert (Hsame : locked = player).
  { unfold player_by_pk in Hlocked.
    assert (Hpk := find_player_pk _ _ _ Hlocked).
    apply find_some in Hlocked. destruct Hlocked as [Hin _].
    exact (NoDup_map_injective player_pk (players d1) locked player Hnd1 Hin Hplayer Hpk). }
  subst locked.
  set (purchase := ledger_entry entry player now
                     (insert_instance (granted_instance interaction entry player d1)
                        (update_player (debited player entry) d1))).
  exists purchase. rewrite Hdb.
  split; [cbn [purchases purchase_committed insert_purchase insert_instance update_player];
          rewrite Hledger; reflexivity |].
  split; [reflexivity |]. split; [exact Hnow |].
  intros ready_at w2 item_id' rotation2 entry2 Hdb2 Hcalm Hlate Hact2 Hfind2 Hsoon.
  destruct w2 as [d2 clk2 tk2 rg2 dr2 fs2]. cbn [db clock tick faults] in *.
  subst fs2 d2. rewrite buy_run.
  assert (Hsettings : settings (purchase_committed interaction entry player now d1)
                      = settings (db w)) by (rewrite <- Hset; reflexivity).
  rewrite Hsettings, He. cbn [negb]. rewrite Hact2, Hfind2. cbv zeta.
  assert (Hgoc : get_or_create (user_id interaction)
                   (purchase_committed interaction entry player now d1)
                 = (debited player entry,
                    purchase_committed interaction entry player now d1)).
  { apply get_or_create_found.
    cbn [players purchase_committed insert_purchase insert_instance update_player].
    apply (find_discord_update (user_id interaction) player (debited player entry));
      [exact Huid | reflexivity | exact Hfinds | exact Hlocked]. }
  rewrite Hgoc. cbn [fst snd].
  destruct (last_purchase_after (player_pk (debited player entry)) purchase
              (purchases (db w)) (purchase_committed interaction entry player now d1))
    as (p & Hp & Hstamp).
  { cbn [purchases purchase_committed insert_purchase insert_instance update_player].
    rewrite Hledger. reflexivity. }
  { reflexivity. }
  { exact Hlate. }
  rewrite Hp, Hstamp.
  assert (Hlt : (clk2 (S tk2) <? created_at purchase
                   + timedelta_seconds (purchase_cooldown_seconds (settings (db w))))
                = true) by (apply Z.ltb_lt; exact Hsoon).
  rewrite Hlt. reflexivity.
Qed.
